(** * Proclens: the process dashboard, embedded and verified

    A shallow embedding of the client-side logic of the dashboard:
    - [ProcessProvider.tsx]: the process record, the synthetic fallback
      data, the refresh update and the chat history;
    - the process table view: search filter, sort, pagination;
    - [QueryInput.tsx]: the query submission flow.

    Conventions of the embedding.
    - A JavaScript string is a [string]: a sequence of code units, here
      the 8-bit ones (Latin-1), on which [toLowerCase], [trim] and the
      relational operators act unit by unit. Beyond Latin-1 lower-casing
      depends on the context (a capital sigma at the end of a word), so
      the search filter, the one place that lower-cases what the user
      types, is also given over sequences of 16-bit code units, with the
      [toLowerCase] of the runtime as a parameter ([Utf16]).
    - A JavaScript number is a canonical rational [Qc] (finite, exact:
      the rounding of doubles is not modelled); the fields the data model
      declares integer ([pid], [threads], [priority]) are [Z] and enter
      numeric comparisons through [Qc_of_Z].
    - What the JavaScript runtime provides and the repository does not
      define (the rendering of a non-integer number, [JSON.stringify],
      [Date], [Math.random], [fetch]) is a parameter of the definitions
      that use it. *)

From Stdlib Require Import QArith Qcanon Qround Ascii.
From stdpp Require Import base numbers list list_numbers strings sorting countable pretty.

Local Open Scope Z_scope.

(** ** The JavaScript runtime *)

Module JS.

(** *** Strings *)

Fixpoint string_map (f : ascii → ascii) (s : string) : string :=
  match s with
  | EmptyString => EmptyString
  | String c s' => String (f c) (string_map f s')
  end.

Fixpoint string_forallb (f : ascii → bool) (s : string) : bool :=
  match s with
  | EmptyString => true
  | String c s' => f c && string_forallb f s'
  end.

(** The code units with a lower-case mapping: A-Z and the Latin-1 capitals
    (U+00C0-U+00DE without the multiplication sign U+00D7). *)
Definition is_upper (c : ascii) : bool :=
  let n := N_of_ascii c in
  ((65 <=? n) && (n <=? 90) ||
   (192 <=? n) && (n <=? 222) && negb (n =? 215))%N.

Definition toLowerCase_unit (c : ascii) : ascii :=
  if is_upper c then ascii_of_N (N_of_ascii c + 32) else c.

(** [s.toLowerCase()] on a string of 8-bit code units: there the
    lower-casing of Unicode is unit by unit, with no special case. (On
    strings with other code units it is not: see [Utf16].) *)
Definition toLowerCase (s : string) : string := string_map toLowerCase_unit s.

(** [s.startsWith(t)] *)
Fixpoint startsWith (s t : string) : bool :=
  match t, s with
  | EmptyString, _ => true
  | String _ _, EmptyString => false
  | String b t', String a s' => if Ascii.eqb a b then startsWith s' t' else false
  end.

(** [s.includes(t)]: [t] occurs in [s] at some position. *)
Fixpoint includes (s t : string) : bool :=
  startsWith s t ||
  match s with
  | EmptyString => false
  | String _ s' => includes s' t
  end.

(** White space and line terminators among the 8-bit code units:
    TAB, LF, VT, FF, CR, SP and NBSP. *)
Definition isWhiteSpace (c : ascii) : bool :=
  let n := N_of_ascii c in
  ((9 <=? n) && (n <=? 13) || (n =? 32) || (n =? 160))%N.

Fixpoint trimStart (s : string) : string :=
  match s with
  | EmptyString => EmptyString
  | String c s' => if isWhiteSpace c then trimStart s' else s
  end.

Fixpoint trimEnd (s : string) : string :=
  match s with
  | EmptyString => EmptyString
  | String c s' =>
      match trimEnd s' with
      | EmptyString => if isWhiteSpace c then EmptyString else String c EmptyString
      | t => String c t
      end
  end.

(** [s.trim()] *)
Definition trim (s : string) : string := trimEnd (trimStart s).

(** The truth value of a string: only the empty string is falsy. *)
Definition truthy (s : string) : bool :=
  match s with EmptyString => false | _ => true end.

(** [a.join(sep)] on an array of strings. *)
Fixpoint join (sep : string) (a : list string) : string :=
  match a with
  | [] => ""
  | [x] => x
  | x :: rest => x +:+ sep +:+ join sep rest
  end.

(** [s.replace(c, d)] with one-unit strings: the first occurrence only. *)
Fixpoint replace_first (c d : ascii) (s : string) : string :=
  match s with
  | EmptyString => EmptyString
  | String a s' => if Ascii.eqb a c then String d s' else String a (replace_first c d s')
  end.

(** The lines of a text: the pieces between line feeds. *)
Fixpoint lines_aux (cur : string) (s : string) : list string :=
  match s with
  | EmptyString => [String.rev cur]
  | String c s' =>
      if Ascii.eqb c "010" then String.rev cur :: lines_aux EmptyString s'
      else lines_aux (String c cur) s'
  end.

Definition lines (s : string) : list string := lines_aux EmptyString s.

(** [a < b] on strings: code unit by code unit. *)
Definition string_lt (a b : string) : bool := String.ltb a b.

(** *** Numbers *)

Definition number := Qc.

(** [n.toString()] for an integer: its decimal digits, after a minus sign
    when negative (integers of magnitude below 10^21, which JavaScript
    prints positionally). *)
Definition Z_toString (n : Z) : string := pretty n.

(** The digits after the decimal point of [rem / den], for [0 <= rem < den]:
    at most [fuel] of them, stopping when the expansion ends. *)
Fixpoint fraction_digits (fuel : nat) (rem den : Z) : string :=
  match fuel with
  | O => ""
  | S fuel' =>
      if decide (rem = 0) then ""
      else pretty ((rem * 10) `div` den) +:+
           fraction_digits fuel' ((rem * 10) `mod` den) den
  end.

(** A rendering of numbers in positional decimal notation. It is what
    [n.toString()] prints for an integer and for a number with a short
    terminating expansion (12.5, 0.07); the definitions below that render
    numbers take the rendering as a parameter, and this one instantiates
    it in examples. *)
Definition decimal_toString (x : number) : string :=
  let n := Qnum x in
  let d := Z.pos (Qden x) in
  let a := Z.abs n in
  (if decide (n < 0) then "-" else "") +:+ pretty (a `div` d) +:+
  (if decide (a `mod` d = 0) then "" else "." +:+ fraction_digits 20 (a `mod` d) d).

(** [Math.floor], [Math.ceil], [Math.max], [Math.min] *)
Definition Math_floor (x : number) : Z := Qfloor x.
Definition Math_ceil (x : number) : Z := Qceiling x.
Definition Math_max (a b : Z) : Z := Z.max a b.
Definition Math_min (a b : Z) : Z := Z.min a b.

(** [parseFloat(x.toFixed(2))]: the nearest multiple of 1/100, a tie going
    away from zero. *)
Definition round_half_up (x : number) : Z := Qfloor (x + Q2Qc (1 # 2))%Qc.

Definition toFixed2 (x : number) : number :=
  if decide (x < 0)%Qc
  then (- (Qc_of_Z (round_half_up (- x * Qc_of_Z 100)) / Qc_of_Z 100))%Qc
  else (Qc_of_Z (round_half_up (x * Qc_of_Z 100)) / Qc_of_Z 100)%Qc.

(** *** Arrays *)

Section Arrays.
Context {A : Type}.

(** [a.slice(start, end)]: a negative index counts from the end, and
    both bounds are clamped to the array. *)
Definition slice (a : list A) (start end_ : Z) : list A :=
  let len := Z.of_nat (length a) in
  let k := if decide (start < 0) then Z.max (len + start) 0 else Z.min start len in
  let final := if decide (end_ < 0) then Z.max (len + end_) 0 else Z.min end_ len in
  take (Z.to_nat (final - k)) (drop (Z.to_nat k) a).

(** [a.sort(comparefn)]. The sort is stable; with a consistent comparator
    its result is determined, and is the one of this insertion sort: an
    element moves right past exactly those it compares greater than. *)
Fixpoint sort_insert (comparefn : A → A → number) (x : A) (l : list A) : list A :=
  match l with
  | [] => [x]
  | y :: l' =>
      if decide (0 < comparefn x y)%Qc
      then y :: sort_insert comparefn x l'
      else x :: l
  end.

Fixpoint sort (comparefn : A → A → number) (a : list A) : list A :=
  match a with
  | [] => []
  | x :: a' => sort_insert comparefn x (sort comparefn a')
  end.

(** What a comparator says of a pair in this order: [keeps a b] when it does
    not ask to swap them, [tie a b] when it asks for neither order. *)
Definition keeps (comparefn : A → A → number) (a b : A) : Prop :=
  ¬ (0 < comparefn a b)%Qc.

Definition tie (comparefn : A → A → number) (a b : A) : Prop :=
  keeps comparefn a b ∧ keeps comparefn b a.

#[global] Instance keeps_dec comparefn : RelDecision (keeps comparefn).
Proof. intros a b. unfold keeps. apply _. Defined.

#[global] Instance tie_dec comparefn : RelDecision (tie comparefn).
Proof. intros a b. unfold tie. apply _. Defined.

(** What the language requires of [a.sort(comparefn)]: the same elements,
    in an order the comparator accepts, tied elements in their original
    order. *)
Definition stable_sort_of (comparefn : A → A → number) (a sorted : list A) : Prop :=
  sorted ≡ₚ a ∧
  StronglySorted (keeps comparefn) sorted ∧
  ∀ x, filter (tie comparefn x) sorted = filter (tie comparefn x) a.

(** [a[i]] where the index is known to be in range; [d] otherwise. *)
Definition index (d : A) (a : list A) (i : Z) : A :=
  if decide (0 ≤ i) then nth (Z.to_nat i) a d else d.
End Arrays.

(** [Array.from({length: n}, (_, i) => f i)] *)
Definition Array_from {A} (n : Z) (f : Z → A) : list A := f <$> seqZ 0 n.

End JS.

(** ** The state container ([ProcessProvider.tsx]) *)

Module Provider.
Import JS.

Record Process := mkProcess {
  pid : Z;
  name : string;
  status : string;
  cpuKb : number;
  memoryKb : number;
  user : string;
  startTime : string;
  threads : Z;
  priority : Z
}.

Record SystemResources := mkSystemResources {
  totalCpuUsage : number;
  totalMemoryUsage : number;
  totalMemory : number;
  diskUsage : number;
  totalDisk : number;
  networkUsage : number
}.

#[global] Instance Process_eq_dec : EqDecision Process.
Proof. solve_decision. Defined.

#[global] Instance SystemResources_eq_dec : EqDecision SystemResources.
Proof. solve_decision. Defined.

(** The outcome of [await fetch(...)]: the promise rejects (transport
    error), or resolves to a response with its [ok] flag, status, body text
    and the value [response.json()] gives ([None] when the body does not
    parse, in which case [response.json()] throws). *)
Inductive FetchResult (A : Type) : Type :=
  | Rejected (reason : string)
  | Responded (ok : bool) (status : Z) (text : string) (json : option A).
Arguments Rejected {A} reason.
Arguments Responded {A} ok status text json.

(** *** The synthetic fallback data *)

(** How many times [Math.random()] was called and [new Date()] was read:
    the state the generators thread. *)
Record World := mkWorld { random_calls : nat; clock_reads : nat }.

Definition Gen (A : Type) : Type := World → A * World.

Definition ret {A} (a : A) : Gen A := λ w, (a, w).

Definition bind {A B} (m : Gen A) (k : A → Gen B) : Gen B :=
  λ w, let (a, w') := m w in k a w'.

#[local] Instance Gen_ret : MRet Gen := @ret.
#[local] Instance Gen_bind : MBind Gen := λ A B k m, bind m k.

Fixpoint mapM {A B} (f : A → Gen B) (l : list A) : Gen (list B) :=
  match l with
  | [] => ret []
  | a :: l' => b ← f a; bs ← mapM f l'; ret (b :: bs)
  end.

Definition processNames : list string :=
  [ "chrome"; "firefox"; "safari"; "edge"; "brave";
    "node"; "npm"; "yarn"; "python"; "python3"; "java"; "javaw"; "dotnet"; "gcc"; "clang";
    "vscode"; "code"; "idea"; "eclipse"; "atom"; "sublime_text"; "notepad++";
    "terminal"; "cmd"; "powershell"; "bash"; "zsh"; "iTerm"; "hyper";
    "spotify"; "spotify.exe"; "music"; "itunes"; "vlc"; "mplayer";
    "slack"; "discord"; "teams"; "zoom"; "skype"; "telegram"; "signal";
    "explorer"; "finder"; "nautilus"; "dolphin";
    "systemd"; "launchd"; "svchost"; "services"; "wininit"; "lsass"; "ntoskrnl";
    "docker"; "containerd"; "kubelet"; "kube-proxy";
    "mysqld"; "postgres"; "mongod"; "redis-server"; "elasticsearch";
    "nginx"; "apache2"; "httpd"; "iis";
    "photoshop"; "illustrator"; "gimp"; "inkscape"; "blender";
    "antivirus"; "defender"; "avast"; "norton"; "mcafee";
    "dropbox"; "onedrive"; "gdrive";
    "steam"; "epic"; "battle.net"; "origin" ].

Definition users : list string :=
  [ "system"; "root"; "admin"; "user"; "guest"; "service"; "daemon"; "www-data"; "nobody" ].

Definition statuses : list string :=
  [ "running"; "sleeping"; "stopped"; "zombie"; "waiting"; "locked" ].

Definition priorities : list Z := [ 0; 1; 2; 5; 10; 15; 20 ].

Section Generators.
(** [Math_random n] is what the [n]-th call of [Math.random()] returns,
    [Date_now n] the time in milliseconds the [n]-th [new Date()] reads,
    and [toISOString] the ISO rendering of a time. *)
Variable Math_random : nat → number.
Variable Date_now : nat → Z.
Variable toISOString : Z → string.

Definition random : Gen number :=
  λ w, (Math_random (random_calls w),
        {| random_calls := S (random_calls w); clock_reads := clock_reads w |}).

Definition new_Date : Gen Z :=
  λ w, (Date_now (clock_reads w),
        {| random_calls := random_calls w; clock_reads := S (clock_reads w) |}).

(** [a[Math.floor(Math.random() * a.length)]] *)
Definition pick {A} (d : A) (a : list A) : Gen A :=
  r ← random;
  ret (index d a (Math_floor (r * Qc_of_Z (Z.of_nat (length a)))%Qc)).

Definition generateStartTime : Gen string :=
  now ← new_Date;
  r ← random;
  let randomMinutes := Math_floor (r * Qc_of_Z (30 * 24 * 60 - 5) + Qc_of_Z 5)%Qc in
  let date := now - randomMinutes * 60000 in
  ret (String.substring 0 19 (replace_first "T" " " (toISOString date))).

(** The callback of [Array.from] in [generateMockProcesses]. *)
Definition mockProcess (i : Z) : Gen Process :=
  name ← pick "" processNames;
  user ← pick "" users;
  status ← pick "" statuses;
  priority ← pick 0 priorities;
  cpu ← random;
  mem ← random;
  start ← generateStartTime;
  thr ← random;
  ret {| pid := 1000 + i;
         name := name;
         status := status;
         cpuKb := toFixed2 (cpu * Qc_of_Z 100)%Qc;
         memoryKb := toFixed2 (mem * Qc_of_Z 1000)%Qc;
         user := user;
         startTime := start;
         threads := Math_floor (thr * Qc_of_Z 20)%Qc + 1;
         priority := priority |}.

Definition generateMockProcesses : Gen (list Process) :=
  generated ← mapM mockProcess (seqZ 0 100);
  ret (sort (λ a b, memoryKb b - memoryKb a)%Qc generated).

Definition generateMockSystemResources : Gen SystemResources :=
  cpu ← random;
  mem ← random;
  disk ← random;
  net ← random;
  ret {| totalCpuUsage := toFixed2 (cpu * Qc_of_Z 100)%Qc;
         totalMemoryUsage := toFixed2 (mem * Qc_of_Z 16000)%Qc;
         totalMemory := Qc_of_Z 32000;
         diskUsage := toFixed2 (disk * Qc_of_Z 500000)%Qc;
         totalDisk := Qc_of_Z 1000000;
         networkUsage := toFixed2 (net * Qc_of_Z 100)%Qc |}.

(** *** The data source *)

Definition fetchProcesses (response : FetchResult (list Process)) : Gen (list Process) :=
  match response with
  | Responded true _ _ (Some data) => ret data
  | Responded true _ _ None => generateMockProcesses
  | Responded false _ _ _ => generateMockProcesses
  | Rejected _ => generateMockProcesses
  end.

Definition fetchSystemResources (response : FetchResult SystemResources) : Gen SystemResources :=
  match response with
  | Responded true _ _ (Some data) => ret data
  | Responded true _ _ None => generateMockSystemResources
  | Responded false _ _ _ => generateMockSystemResources
  | Rejected _ => generateMockSystemResources
  end.

(** *** The held state and its refresh *)

Record State := mkState {
  processes : list Process;
  systemResources : SystemResources;
  loading : bool;
  error : option string;
  chatHistory : list string
}.

Definition initialState : State :=
  {| processes := [];
     systemResources :=
       {| totalCpuUsage := Qc_of_Z 0; totalMemoryUsage := Qc_of_Z 0;
          totalMemory := Qc_of_Z 32000; diskUsage := Qc_of_Z 0;
          totalDisk := Qc_of_Z 1000000; networkUsage := Qc_of_Z 0 |};
     loading := true;
     error := None;
     chatHistory := [] |}.

Variable JSON_stringify : list Process → string.

(** The updater passed to [setProcesses]. *)
Definition updateProcesses (processData prevProcesses : list Process) : list Process :=
  let hasChanged :=
    negb (bool_decide (0 < Z.of_nat (length prevProcesses))) ||
    negb (String.eqb (JSON_stringify (slice processData 0 5))
                     (JSON_stringify (slice prevProcesses 0 5))) in
  if hasChanged then processData else prevProcesses.

(** [refreshProcesses], from the start of the call to the state it leaves
    when both fetches have settled. The two fetchers catch every failure
    themselves, so the [catch] branch of the refresh is not entered. The
    fetches run concurrently; their fallbacks draw from the runtime in the
    order of the array passed to [Promise.all]. *)
Definition refreshProcesses
    (processResponse : FetchResult (list Process))
    (resourceResponse : FetchResult SystemResources) (st : State) : Gen State :=
  processData ← fetchProcesses processResponse;
  resourceData ← fetchSystemResources resourceResponse;
  ret {| processes := updateProcesses processData (processes st);
         systemResources := resourceData;
         loading := false;
         error := None;
         chatHistory := chatHistory st |}.

End Generators.

Definition addToChatHistory (response : string) (st : State) : State :=
  {| processes := processes st;
     systemResources := systemResources st;
     loading := loading st;
     error := error st;
     chatHistory := chatHistory st ++ [response] |}.

Definition setLoading (b : bool) (st : State) : State :=
  {| processes := processes st;
     systemResources := systemResources st;
     loading := b;
     error := error st;
     chatHistory := chatHistory st |}.

(** The state while the fetches of a refresh are in flight. [seen] is the
    process list of the render whose [refreshProcesses] runs: the guard
    reads it from the closure, not from the held state. *)
Definition refreshStart (seen : list Process) (st : State) : State :=
  if bool_decide (Z.of_nat (length seen) = 0) then setLoading true st else st.

End Provider.

(** ** The process table view *)

Module Table.
Import JS Provider.

Inductive Direction := ascending | descending.

(** [keyof Process] *)
Inductive ProcessKey :=
  | K_pid | K_name | K_status | K_cpuKb | K_memoryKb
  | K_user | K_startTime | K_threads | K_priority.

Record SortConfig := mkSortConfig { key : ProcessKey; direction : Direction }.

Record ViewState := mkViewState {
  searchTerm : string;
  sortConfig : SortConfig;
  currentPage : Z
}.

Definition initialView : ViewState :=
  {| searchTerm := "";
     sortConfig := {| key := K_memoryKb; direction := descending |};
     currentPage := 1 |}.

Definition itemsPerPage : Z := 10.

#[global] Instance Direction_eq_dec : EqDecision Direction.
Proof. solve_decision. Defined.

#[global] Instance ProcessKey_eq_dec : EqDecision ProcessKey.
Proof. solve_decision. Defined.

Definition handleSort (k : ProcessKey) (cfg : SortConfig) : SortConfig :=
  let direction :=
    if bool_decide (key cfg = k) && bool_decide (direction cfg = ascending)
    then descending else ascending in
  {| key := k; direction := direction |}.

(** The predicate of [processes.filter(...)]. *)
Definition matchesSearch (searchTerm : string) (process : Process) : bool :=
  includes (toLowerCase (name process)) (toLowerCase searchTerm) ||
  includes (Z_toString (pid process)) searchTerm ||
  includes (toLowerCase (status process)) (toLowerCase searchTerm) ||
  includes (toLowerCase (user process)) (toLowerCase searchTerm).

Definition filteredProcesses (processes : list Process) (searchTerm : string) : list Process :=
  List.filter (matchesSearch searchTerm) processes.

(** The value [a[key]] of a field: a number or a string. *)
Inductive value := VNum (n : number) | VStr (s : string).

#[global] Instance value_eq_dec : EqDecision value.
Proof. solve_decision. Defined.

Definition field (k : ProcessKey) (p : Process) : value :=
  match k with
  | K_pid => VNum (Qc_of_Z (pid p))
  | K_name => VStr (name p)
  | K_status => VStr (status p)
  | K_cpuKb => VNum (cpuKb p)
  | K_memoryKb => VNum (memoryKb p)
  | K_user => VStr (user p)
  | K_startTime => VStr (startTime p)
  | K_threads => VNum (Qc_of_Z (threads p))
  | K_priority => VNum (Qc_of_Z (priority p))
  end.

(** [x < y] on two field values. Both operands of the comparator come from
    the same field, so they are two numbers or two strings; the mixed case
    does not arise and is [false] here. *)
Definition js_lt (x y : value) : bool :=
  match x, y with
  | VNum a, VNum b => bool_decide (a < b)%Qc
  | VStr a, VStr b => string_lt a b
  | _, _ => false
  end.

(** The comparator of [sortedProcesses]. *)
Definition compareProcesses (cfg : SortConfig) (a b : Process) : number :=
  if js_lt (field (key cfg) a) (field (key cfg) b) then
    match direction cfg with ascending => Qc_of_Z (-1) | descending => Qc_of_Z 1 end
  else if js_lt (field (key cfg) b) (field (key cfg) a) then
    match direction cfg with ascending => Qc_of_Z 1 | descending => Qc_of_Z (-1) end
  else Qc_of_Z 0.

Definition sortedProcesses (filtered : list Process) (cfg : SortConfig) : list Process :=
  sort (compareProcesses cfg) filtered.

Definition totalPages (sorted : list Process) : Z :=
  Math_ceil (Qc_of_Z (Z.of_nat (length sorted)) / Qc_of_Z itemsPerPage)%Qc.

Definition paginatedProcesses (sorted : list Process) (currentPage : Z) : list Process :=
  slice sorted ((currentPage - 1) * itemsPerPage) (currentPage * itemsPerPage).

(** The three derived lists of one render. *)
Definition filteredOf (processes : list Process) (v : ViewState) : list Process :=
  filteredProcesses processes (searchTerm v).

Definition sortedOf (processes : list Process) (v : ViewState) : list Process :=
  sortedProcesses (filteredOf processes v) (sortConfig v).

Definition paginatedOf (processes : list Process) (v : ViewState) : list Process :=
  paginatedProcesses (sortedOf processes v) (currentPage v).

(** The page number shown in slot [i] of the pagination bar. *)
Definition pageNum (totalPages currentPage i : Z) : Z :=
  if decide (totalPages ≤ 5) then i + 1
  else if decide (currentPage ≤ 3) then i + 1
  else if decide (currentPage >= totalPages - 2) then totalPages - 4 + i
  else currentPage - 2 + i.

Definition pageNumbers (totalPages currentPage : Z) : list Z :=
  Array_from (Math_min 5 totalPages) (pageNum totalPages currentPage).

Definition paginationPrevious (p : Z) : Z := Math_max 1 (p - 1).

Definition paginationNext (totalPages p : Z) : Z := Math_min totalPages (p + 1).

(** The pagination bar is rendered only for more than one page of rows. *)
Definition paginationShown (sorted : list Process) : bool :=
  bool_decide (Z.of_nat (length sorted) > itemsPerPage).

(** What the table body shows. *)
Inductive Body :=
  | Skeleton (rows : nat)
  | Rows (rows : list Process)
  | Message (text : string).

Definition tableBody (loading : bool) (processes : list Process) (v : ViewState) : Body :=
  if loading && negb (bool_decide (0 < Z.of_nat (length processes))) then Skeleton 5
  else if bool_decide (Z.of_nat (length (paginatedOf processes v)) > 0)
  then Rows (paginatedOf processes v)
  else Message (if truthy (searchTerm v)
                then "No matching processes found" else "No processes found").

(** *** The handlers of the view, as transitions of its state *)

Definition setSearchTerm (term : string) (v : ViewState) : ViewState :=
  {| searchTerm := term; sortConfig := sortConfig v; currentPage := currentPage v |}.

Definition setSortConfig (cfg : SortConfig) (v : ViewState) : ViewState :=
  {| searchTerm := searchTerm v; sortConfig := cfg; currentPage := currentPage v |}.

Definition setCurrentPage (p : Z) (v : ViewState) : ViewState :=
  {| searchTerm := searchTerm v; sortConfig := sortConfig v; currentPage := p |}.

(** One event on the table: a refresh replaces the process list the
    provider hands to the view, the others are the user's actions on the
    view showing [processes]. The three pagination actions exist only
    while the bar is rendered. *)
Inductive step : list Process * ViewState → list Process * ViewState → Prop :=
  | step_refresh processes processes' v :
      step (processes, v) (processes', v)
  | step_search term processes v :
      step (processes, v) (processes, setSearchTerm term v)
  | step_sort k processes v :
      step (processes, v) (processes, setSortConfig (handleSort k (sortConfig v)) v)
  | step_previous processes v :
      paginationShown (sortedOf processes v) = true →
      step (processes, v)
           (processes, setCurrentPage (paginationPrevious (currentPage v)) v)
  | step_next processes v :
      paginationShown (sortedOf processes v) = true →
      step (processes, v)
           (processes,
            setCurrentPage
              (paginationNext (totalPages (sortedOf processes v)) (currentPage v)) v)
  | step_link n processes v :
      paginationShown (sortedOf processes v) = true →
      n ∈ pageNumbers (totalPages (sortedOf processes v)) (currentPage v) →
      step (processes, v) (processes, setCurrentPage n v).

(** The states the table can be in: it starts with no process and the
    initial view. *)
Inductive reachable : list Process * ViewState → Prop :=
  | reachable_initial : reachable ([], initialView)
  | reachable_step s s' : reachable s → step s s' → reachable s'.

(** The mark [getSortIndicator] puts after a header: none, the up arrow or
    the down arrow. *)
Inductive Indicator := ArrowUp | ArrowDown.

Definition getSortIndicator (k : ProcessKey) (cfg : SortConfig) : option Indicator :=
  if bool_decide (key cfg ≠ k) then None
  else Some (match direction cfg with ascending => ArrowUp | descending => ArrowDown end).

End Table.

(** ** The search filter over 16-bit code units *)

Module Utf16.
Import JS.

(** A JavaScript string as the engine holds it: a sequence of 16-bit code
    units. *)
Definition String16 : Type := list N.

(** The code units of a string of 8-bit units. *)
Fixpoint units (s : string) : String16 :=
  match s with
  | EmptyString => []
  | String c s' => N_of_ascii c :: units s'
  end.

(** [s.startsWith(t)] *)
Fixpoint startsWith (s t : String16) : bool :=
  match t, s with
  | [], _ => true
  | _ :: _, [] => false
  | b :: t', a :: s' => if (a =? b)%N then startsWith s' t' else false
  end.

(** [s.includes(t)]: [t] occurs in [s] at some position. *)
Fixpoint includes (s t : String16) : bool :=
  startsWith s t ||
  match s with
  | [] => false
  | _ :: s' => includes s' t
  end.

(** [n.toString()] for an integer: the code units of its decimal text. *)
Definition Z_toString (n : Z) : String16 := units (JS.Z_toString n).

(** The process record of [ProcessProvider.tsx], its strings as they are
    in the engine. *)
Record Process := mkProcess {
  pid : Z;
  name : String16;
  status : String16;
  cpuKb : number;
  memoryKb : number;
  user : String16;
  startTime : String16;
  threads : Z;
  priority : Z
}.

Section Filter.
(** [String.prototype.toLowerCase], which the runtime provides. *)
Variable toLowerCase : String16 → String16.

Definition matchesSearch (searchTerm : String16) (process : Process) : bool :=
  includes (toLowerCase (name process)) (toLowerCase searchTerm) ||
  includes (Z_toString (pid process)) searchTerm ||
  includes (toLowerCase (status process)) (toLowerCase searchTerm) ||
  includes (toLowerCase (user process)) (toLowerCase searchTerm).

Definition filteredProcesses (processes : list Process) (searchTerm : String16)
    : list Process :=
  List.filter (matchesSearch searchTerm) processes.

(** [field] contains [term] as a case-insensitive substring: some piece of
    [field] equals [term] up to the case of its letters. *)
Definition contains_ci (field term : String16) : Prop :=
  ∃ pre mid post, field = pre ++ mid ++ post ∧ toLowerCase mid = toLowerCase term.

(** The records the search is to keep. *)
Definition matchesSpec (term : String16) (p : Process) : Prop :=
  contains_ci (name p) term ∨
  contains_ci (Z_toString (pid p)) term ∨
  contains_ci (status p) term ∨
  contains_ci (user p) term.

End Filter.

(** A string within Latin-1: every code unit is below 256. *)
Definition latin1 (s : String16) : Prop := Forall (λ u, (u < 256)%N) s.


(** The lower-casing of one Latin-1 code unit: A-Z and the capitals
    U+00C0-U+00DE without the multiplication sign U+00D7 move up by 32,
    every other unit stays. *)
Definition toLowerCase_latin1 (u : N) : N :=
  if ((65 <=? u) && (u <=? 90) ||
      (192 <=? u) && (u <=? 222) && negb (u =? 215))%N
  then (u + 32)%N else u.

(** What is assumed of the runtime's [toLowerCase]: on a string within
    Latin-1 it lower-cases unit by unit. Nothing is assumed of it on other
    strings. *)
Definition lowers_latin1 (toLowerCase : String16 → String16) : Prop :=
  ∀ s, latin1 s → toLowerCase s = toLowerCase_latin1 <$> s.

(** The contiguous pieces of a string. *)
Fixpoint inits (s : String16) : list String16 :=
  [] :: match s with
        | [] => []
        | u :: s' => (u ::.) <$> inits s'
        end.

Fixpoint pieces (s : String16) : list String16 :=
  inits s ++ match s with
             | [] => []
             | _ :: s' => pieces s'
             end.

(** A record of 8-bit strings, as the engine holds it. *)
Definition widen (p : Provider.Process) : Process :=
  {| pid := Provider.pid p;
     name := units (Provider.name p);
     status := units (Provider.status p);
     cpuKb := Provider.cpuKb p;
     memoryKb := Provider.memoryKb p;
     user := units (Provider.user p);
     startTime := units (Provider.startTime p);
     threads := Provider.threads p;
     priority := Provider.priority p |}.

End Utf16.

(** ** The query submission flow ([QueryInput.tsx]) *)

Module Query.
Import JS Provider.

Definition OLLAMA_PORT : string := "11434".

Record Options := mkOptions { temperature : number; max_tokens : Z }.

Record Payload := mkPayload {
  model : string;
  prompt : string;
  stream : bool;
  options : Options
}.

(** The parsed body of a reply: its [response] field, when present. *)
Record Reply := mkReply { response : option string }.

(** What a failed call throws: the reason [fetch] rejected with, the
    [Error] made for a status that is not a success (its message), or
    what reading a body that gives no reply throws ([response.json()]
    for a body that does not parse; the body decides it). *)
Inductive Thrown :=
  | FetchError (reason : string)
  | StatusError (message : string)
  | BodyError (body : string).

(** What a submission does besides changing state, in order.
    [console.error] is called with a label and the error caught. *)
Inductive Effect :=
  | PreventDefault
  | ToastError (message : string)
  | Post (url : string) (body : Payload)
  | ConsoleError (label : string) (error : Thrown)
  | ScrollLater (delay : Z).

#[global] Instance Effect_eq_dec : EqDecision Effect.
Proof.
  assert (EqDecision Options) by solve_decision.
  assert (EqDecision Payload) by solve_decision.
  assert (EqDecision Thrown) by solve_decision.
  solve_decision.
Defined.

(** A computation that may throw: its value or the error, and the effects
    it performed either way. *)
Definition Attempt (A : Type) : Type := (A + Thrown) * list Effect.

Record State := mkState {
  query : string;
  isLoading : bool;
  ollamaAvailable : option bool
}.

Definition initialState : State :=
  {| query := ""; isLoading := false; ollamaAvailable := None |}.

Definition setQuery (q : string) (st : State) : State :=
  {| query := q; isLoading := isLoading st; ollamaAvailable := ollamaAvailable st |}.

Definition setIsLoading (b : bool) (st : State) : State :=
  {| query := query st; isLoading := b; ollamaAvailable := ollamaAvailable st |}.

Section Submission.
(** The rendering [`${n}`] of a number, and the inference endpoint: what
    [fetch] gives for a request. *)
Variable Number_toString : number → string.
Variable fetch : string → Payload → FetchResult Reply.

Definition queryOllama (query context : string) : Attempt string :=
  let apiUrl := "http://localhost:" +:+ OLLAMA_PORT +:+ "/api/generate" in
  let payload :=
    {| model := "phi";
       prompt := context +:+ String "010" "" +:+ query;
       stream := false;
       options := {| temperature := Q2Qc (7 # 10); max_tokens := 256 |} |} in
  match fetch apiUrl payload with
  | Responded true _ _ (Some data) =>
      (inl (match response data with
            | Some text => if truthy text then text else "No response from Ollama."
            | None => "No response from Ollama."
            end),
       [Post apiUrl payload])
  | Responded true _ text None =>
      let error := BodyError text in
      (inr error, [Post apiUrl payload; ConsoleError "Ollama API error:" error])
  | Responded false status text _ =>
      let error := StatusError ("Error " +:+ Z_toString status +:+ ": " +:+ text) in
      (inr error, [Post apiUrl payload; ConsoleError "Ollama API error:" error])
  | Rejected reason =>
      let error := FetchError reason in
      (inr error, [Post apiUrl payload; ConsoleError "Ollama API error:" error])
  end.

(** One entry of the context: the template string of [handleSubmit]. *)
Definition processLine (proc : Process) : string :=
  "PID: " +:+ Z_toString (pid proc) +:+
  ", Name: " +:+ name proc +:+
  ", Status: " +:+ status proc +:+
  ", CPU KB: " +:+ Number_toString (cpuKb proc) +:+
  ", Memory KB: " +:+ Number_toString (memoryKb proc).

Definition buildContext (processes : list Process) : string :=
  "System processes: " +:+ join ", " (processLine <$> processes).

(** [handleSubmit]: the state of the provider and of the input it leaves,
    and the effects performed. *)
Definition handleSubmit (shared : Provider.State) (st : State)
    : Provider.State * State * list Effect :=
  if negb (truthy (trim (query st))) then
    (shared, st, [PreventDefault; ToastError "Please enter a query"])
  else
    let context := buildContext (processes shared) in
    match queryOllama (query st) context with
    | (inl response, effects) =>
        (addToChatHistory response shared,
         setIsLoading false (setQuery "" (setIsLoading true st)),
         PreventDefault :: effects ++ [ScrollLater 100])
    | (inr error, effects) =>
        (shared,
         setIsLoading false (setIsLoading true st),
         PreventDefault :: effects ++
           [ConsoleError "Error querying AI:" error;
            ToastError "Failed to get a response"])
    end.

End Submission.

(** [isOllamaRunning], from the outcome of its probe request. *)
Definition isOllamaRunning {A} (probe : FetchResult A) : bool :=
  match probe with
  | Responded _ status _ _ => bool_decide (status = 200)
  | Rejected _ => false
  end.

(** The effect run on mount: the probe settles and its verdict is stored. *)
Definition checkOllama {A} (probe : FetchResult A) (st : State) : State :=
  {| query := query st; isLoading := isLoading st;
     ollamaAvailable := Some (isOllamaRunning probe) |}.

(** Whether the banner [Ollama is not running] is rendered. *)
Definition warningShown (st : State) : bool :=
  match ollamaAvailable st with
  | Some false => true
  | _ => false
  end.

(** The [disabled] attribute of the input and of the submit button. *)
Definition inputDisabled (st : State) : bool := isLoading st.

Definition submitDisabled (st : State) : bool :=
  isLoading st || negb (truthy (trim (query st))).

End Query.

(** ** The response box ([ResponseBox.tsx]) *)

Module ResponseBox.
Import JS.

(** One rendered reply: its key, its animation delay in seconds and its
    text. *)
Record Card := mkCard { cardKey : nat; animationDelay : number; cardText : string }.

(** What the component renders: nothing for an empty history, one card
    per reply otherwise. *)
Definition responseBox (chatHistory : list string) : option (list Card) :=
  if bool_decide (Z.of_nat (length chatHistory) = 0) then None
  else Some (imap (λ index response,
                     {| cardKey := index;
                        animationDelay := (Qc_of_Z (Z.of_nat index) * Q2Qc (1 # 10))%Qc;
                        cardText := response |}) chatHistory).

End ResponseBox.

(** ** The notions the properties are stated with *)

Module Spec.
Import JS Provider Table Query.

(** [field] contains [term] as a case-insensitive substring: some piece of
    [field] equals [term] up to the case of its letters. *)
Definition contains_ci (field term : string) : Prop :=
  ∃ pre mid post, field = pre +:+ mid +:+ post ∧ toLowerCase mid = toLowerCase term.

(** The records the search is to keep. *)
Definition matchesSpec (term : string) (p : Process) : Prop :=
  contains_ci (name p) term ∨
  contains_ci (Z_toString (pid p)) term ∨
  contains_ci (status p) term ∨
  contains_ci (user p) term.

(** The natural order of field values: numbers as numbers, strings code
    unit by code unit. *)
Definition value_le (x y : value) : Prop :=
  match x, y with
  | VNum a, VNum b => (a ≤ b)%Qc
  | VStr a, VStr b => String.leb a b = true
  | _, _ => False
  end.

Definition ascending_by (k : ProcessKey) (l : list Process) : Prop :=
  StronglySorted (λ a b, value_le (field k a) (field k b)) l.

Definition descending_by (k : ProcessKey) (l : list Process) : Prop :=
  StronglySorted (λ a b, value_le (field k b) (field k a)) l.

(** The records of [l] whose sort key has the value [v], in their order. *)
Definition with_key (k : ProcessKey) (v : value) (l : list Process) : list Process :=
  filter (λ p, field k p = v) l.

(** The code units of the decimal text of an integer: the digits and the
    minus sign. *)
Definition is_pid_unit (c : ascii) : bool :=
  let n := N_of_ascii c in ((48 <=? n) && (n <=? 57) || (n =? 45))%N.

(** A list in descending order of memory usage. *)
Definition descending_memory (l : list Process) : Prop :=
  StronglySorted (λ a b, (memoryKb b ≤ memoryKb a)%Qc) l.

(** A fetch that does not deliver data: the transport failed, the status
    is not a success, or the body does not parse. *)
Definition failed {A} (response : FetchResult A) : Prop :=
  match response with
  | Responded true _ _ (Some _) => False
  | _ => True
  end.

(** A string of white space only (the empty string included). *)
Definition blank (s : string) : Prop := string_forallb isWhiteSpace s = true.

(** The requests to the inference endpoint and the notifications among
    the effects of a submission. *)
Definition is_post (e : Effect) : bool :=
  match e with Post _ _ => true | _ => false end.

Definition is_toast (e : Effect) : bool :=
  match e with ToastError _ => true | _ => false end.

Definition posts (effects : list Effect) : list Effect := List.filter is_post effects.

Definition toasts (effects : list Effect) : list Effect := List.filter is_toast effects.

(** What the user can notice of a submission: every effect but the
    writes to the console. *)
Definition is_console (e : Effect) : bool :=
  match e with ConsoleError _ _ => true | _ => false end.

Definition visible (effects : list Effect) : list Effect :=
  List.filter (λ e, negb (is_console e)) effects.

(** Two effects that differ at most in the error written to the console. *)
Definition alike (e e' : Effect) : Prop :=
  match e, e' with
  | ConsoleError label _, ConsoleError label' _ => label = label'
  | _, _ => e = e'
  end.

(** The error [queryOllama] throws for an answer, if any. *)
Definition thrownFor (answer : FetchResult Reply) : option Thrown :=
  match answer with
  | Responded true _ _ (Some _) => None
  | Responded true _ text None => Some (BodyError text)
  | Responded false status text _ =>
      Some (StatusError ("Error " +:+ Z_toString status +:+ ": " +:+ text))
  | Rejected reason => Some (FetchError reason)
  end.

(** What the endpoint answered to the request among [effects], when there
    is one: the outcome of the inference call of a submission. *)
Definition inference (fetch : string → Payload → FetchResult Reply)
    (effects : list Effect) : option (FetchResult Reply) :=
  match posts effects with
  | Post url body :: _ => Some (fetch url body)
  | _ => None
  end.

(** The textual reply of a parsed answer: its [response] field, or a
    placeholder when the field is absent or empty. *)
Definition replyText (data : Reply) : string :=
  match response data with
  | Some text => if truthy text then text else "No response from Ollama."
  | None => "No response from Ollama."
  end.

(** The request a submission is to send: its address and its body. *)
Definition generateUrl : string := "http://localhost:11434/api/generate".

Definition requestOf (Number_toString : number → string)
    (shared : Provider.State) (st : Query.State) : Payload :=
  {| model := "phi";
     prompt := "System processes: " +:+
               join ", " (processLine Number_toString <$> processes shared) +:+
               String "010" "" +:+ query st;
     stream := false;
     options := {| temperature := Q2Qc (7 # 10); max_tokens := 256 |} |}.

End Spec.

(** ** Sample data *)

Module Sample.
Import JS Provider Table Query.

Definition sampleProcess (i : Z) (name : string) : Process :=
  {| pid := 1000 + i; name := name; status := "running";
     cpuKb := Qc_of_Z i; memoryKb := Qc_of_Z (100 - i); user := "root";
     startTime := "2024-01-01 00:00:00"; threads := 1; priority := 0 |}.

(** Eleven processes, the last of which is named [zsh]. *)
Definition elevenProcesses : list Process :=
  ((λ i, sampleProcess i "node") <$> seqZ 0 10) ++ [sampleProcess 10 "zsh"].

Definition twentyFiveProcesses : list Process :=
  (λ i, sampleProcess i "node") <$> seqZ 0 25.

(** The view on page 2 of [elevenProcesses] after typing [zsh]. *)
Definition pageTwoSearching : ViewState :=
  {| searchTerm := "zsh";
     sortConfig := {| key := K_memoryKb; direction := descending |};
     currentPage := 2 |}.

(** Forty processes, the last fifteen of which are named [zsh], and the
    view on page 4 of them after typing [zsh]. *)
Definition fortyProcesses : list Process :=
  ((λ i, sampleProcess i "node") <$> seqZ 0 25) ++
  ((λ i, sampleProcess i "zsh") <$> seqZ 25 15).

Definition pageFourSearching : ViewState :=
  {| searchTerm := "zsh";
     sortConfig := {| key := K_memoryKb; direction := descending |};
     currentPage := 4 |}.






(** The fixture of the search scenario. *)
Definition nodeProcess : Process :=
  {| pid := 1042; name := "node"; status := "running";
     cpuKb := Q2Qc (25 # 2); memoryKb := Qc_of_Z 300; user := "user";
     startTime := "2024-01-01 00:00:00"; threads := 4; priority := 0 |}.

Definition notepadProcess : Process :=
  {| pid := 2001; name := "notepad++"; status := "sleeping";
     cpuKb := Qc_of_Z 1; memoryKb := Qc_of_Z 200; user := "admin";
     startTime := "2024-01-01 00:00:00"; threads := 2; priority := 0 |}.

(** A runtime for the generators: every random draw is 1/2, the clock
    stands at 0. *)
Definition halfRandom : nat → number := λ _, Q2Qc (1 # 2).
Definition epochClock : nat → Z := λ _, 0.
Definition epochISO : Z → string := λ _, "1970-01-01T00:00:00.000Z".

(** A serialization that tells all process lists apart: the decimal index
    of the list in an enumeration of the lists. It stands for
    [JSON.stringify] where a concrete one is needed. *)
#[global] Instance Process_countable : Countable Process :=
  inj_countable'
    (λ p, (pid p, name p, status p, cpuKb p, memoryKb p,
           user p, startTime p, threads p, priority p))
    (λ t, let '(a, b, c, d, e, f, g, h, i) := t in mkProcess a b c d e f g h i)
    (λ p, match p with mkProcess _ _ _ _ _ _ _ _ _ => eq_refl end).

Definition indexStringify (l : list Process) : string := pretty (encode l).

(** An inference endpoint that answers every request with [reply], and
    one that is down. *)
Definition answering (reply : string) : string → Payload → FetchResult Reply :=
  λ _ _, Responded true 200 "" (Some {| response := Some reply |}).

Definition unreachable : string → Payload → FetchResult Reply :=
  λ _ _, Rejected "Failed to fetch".

Definition heldState : Provider.State :=
  {| processes := [nodeProcess; notepadProcess];
     systemResources := systemResources Provider.initialState;
     loading := false; error := None; chatHistory := ["earlier reply"] |}.

Definition typed (q : string) : Query.State :=
  {| query := q; isLoading := false; ollamaAvailable := Some true |}.

End Sample.

(** ** Sequences of events *)

Module Session.
Import JS Provider Query Spec.

(** One turn of a session: the user types [asked] and submits while the
    endpoint behaves as [endpoint]. *)
Record Turn := mkTurn {
  asked : string;
  endpoint : string → Payload → FetchResult Reply
}.

(** What happens to the application: a turn of the user, or a refresh
    that settles with the two responses. *)
Inductive Event :=
  | Ask (t : Turn)
  | Refreshed (processResponse : FetchResult (list Process))
              (resourceResponse : FetchResult SystemResources).

Section Run.
Variable Math_random : nat → number.
Variable Date_now : nat → Z.
Variable toISOString : Z → string.
Variable JSON_stringify : list Process → string.
Variable Number_toString : number → string.

Definition submitTurn (s : Provider.State * Query.State) (t : Turn)
    : Provider.State * Query.State :=
  (handleSubmit Number_toString (endpoint t) s.1 (setQuery (asked t) s.2)).1.

(** The turns of a user, with no refresh in between. *)
Definition session (turns : list Turn) (s : Provider.State * Query.State)
    : Provider.State * Query.State :=
  foldl submitTurn s turns.

Definition react (s : Provider.State * Query.State * World) (e : Event)
    : Provider.State * Query.State * World :=
  match e with
  | Ask t => (submitTurn s.1 t, s.2)
  | Refreshed processResponse resourceResponse =>
      let (shared', w') :=
        refreshProcesses Math_random Date_now toISOString JSON_stringify
          processResponse resourceResponse s.1.1 s.2 in
      (shared', s.1.2, w')
  end.

Definition run (events : list Event) (s : Provider.State * Query.State * World)
    : Provider.State * Query.State * World :=
  foldl react s events.

(** A turn whose query is sent and answered with a body that parses,
    while [held] are the processes. *)
Definition answered (held : list Process) (t : Turn) : bool :=
  truthy (trim (asked t)) &&
  match endpoint t generateUrl
          {| model := "phi";
             prompt := buildContext Number_toString held +:+ String "010" "" +:+ asked t;
             stream := false;
             options := {| temperature := Q2Qc (7 # 10); max_tokens := 256 |} |} with
  | Responded true _ _ (Some _) => true
  | _ => false
  end.

End Run.

End Session.

(** ** Further notions *)

Module Notions.
Import JS Provider Query.

(** An inference endpoint that answers every request with status 500. *)
Definition overloaded : string → Payload → FetchResult Reply :=
  λ _ _, Responded false 500 "model not loaded" None.

(** The fields a synthetic record may have. *)
Definition plausible (p : Process) : Prop :=
  name p ∈ processNames ∧ user p ∈ users ∧ status p ∈ statuses ∧
  priority p ∈ priorities ∧
  1 ≤ threads p ≤ 20 ∧
  (0 ≤ cpuKb p ≤ Qc_of_Z 100)%Qc ∧
  (0 ≤ memoryKb p ≤ Qc_of_Z 1000)%Qc.

End Notions.


(** * Proofs *)

Module StringFacts.
Import JS Spec.

Lemma append_cons c (a b : string) : String c a +:+ b = String c (a +:+ b).
Proof. reflexivity. Qed.

Lemma append_assoc (a b c : string) : (a +:+ b) +:+ c = a +:+ b +:+ c.
Proof. induction a as [|x a IH]; [done|]. by rewrite !append_cons, IH. Qed.

Lemma string_map_app f (a b : string) :
  string_map f (a +:+ b) = string_map f a +:+ string_map f b.
Proof.
  induction a as [|x a IH]; [done|].
  rewrite append_cons. simpl. by rewrite append_cons, IH.
Qed.

Lemma string_map_split f (s a b : string) :
  string_map f s = a +:+ b →
  ∃ a' b', s = a' +:+ b' ∧ string_map f a' = a ∧ string_map f b' = b.
Proof.
  revert s. induction a as [|c a IH]; intros s H.
  - exists "", s. auto.
  - rewrite append_cons in H.
    destruct s as [|d s]; simpl in H; [discriminate|].
    injection H as Hc Hs. destruct (IH _ Hs) as (a' & b' & -> & Ha & Hb).
    exists (String d a'), b'. rewrite append_cons. simpl. rewrite Ha, Hc. auto.
Qed.

Lemma string_forallb_app f (a b : string) :
  string_forallb f (a +:+ b) = string_forallb f a && string_forallb f b.
Proof.
  induction a as [|x a IH]; [done|].
  rewrite append_cons. simpl. rewrite IH. by rewrite andb_assoc.
Qed.

Lemma startsWith_spec (s t : string) :
  startsWith s t = true ↔ ∃ r, s = t +:+ r.
Proof.
  revert s. induction t as [|b t IH]; intros s.
  - split; [intros _; by exists s | intros _; by destruct s].
  - destruct s as [|a s].
    + split; [done | intros [r Hr]; discriminate].
    + simpl.
      destruct (Ascii.eqb_spec a b) as [->|Hne].
      * rewrite IH. split; intros [r Hr]; exists r; rewrite ?append_cons in *; congruence.
      * split; [done | intros [r Hr]; rewrite append_cons in Hr; congruence].
Qed.

Lemma includes_nil (t : string) : includes "" t = startsWith "" t.
Proof. simpl. by rewrite orb_false_r. Qed.

Lemma includes_cons c (s t : string) :
  includes (String c s) t = startsWith (String c s) t || includes s t.
Proof. reflexivity. Qed.

Lemma includes_spec (s t : string) :
  includes s t = true ↔ ∃ a b, s = a +:+ t +:+ b.
Proof.
  induction s as [|c s IH].
  - rewrite includes_nil, startsWith_spec. split.
    + intros [r Hr]. by exists "", r.
    + intros (a & b & H). destruct a; [by exists b | discriminate].
  - rewrite includes_cons, orb_true_iff, startsWith_spec, IH. split.
    + intros [[r Hr] | (a & b & ->)].
      * by exists "", r.
      * by exists (String c a), b.
    + intros (a & b & H). destruct a as [|d a].
      * left. by exists b.
      * right. rewrite append_cons in H. injection H as -> ->. by exists a, b.
Qed.

Lemma includes_empty (s : string) : includes s "" = true.
Proof. destruct s; reflexivity. Qed.


Lemma toLowerCase_unit_pid (c : ascii) :
  is_pid_unit (toLowerCase_unit c) = true → toLowerCase_unit c = c.
Proof. destruct c as [[] [] [] [] [] [] [] []]; vm_compute; congruence. Qed.

Lemma pid_unit_toLowerCase (c : ascii) :
  is_pid_unit c = true → toLowerCase_unit c = c.
Proof. destruct c as [[] [] [] [] [] [] [] []]; vm_compute; congruence. Qed.

Lemma toLowerCase_pid_fixed (s : string) :
  string_forallb is_pid_unit s = true → toLowerCase s = s.
Proof.
  induction s as [|c s IH]; [done|]. simpl. intros [Hc Hs]%andb_true_iff.
  unfold toLowerCase in *. simpl. by rewrite pid_unit_toLowerCase, IH.
Qed.

Lemma toLowerCase_pid_reflect (s : string) :
  string_forallb is_pid_unit (toLowerCase s) = true → toLowerCase s = s.
Proof.
  induction s as [|c s IH]; [done|]. unfold toLowerCase in *. simpl.
  intros [Hc Hs]%andb_true_iff. by rewrite toLowerCase_unit_pid, IH.
Qed.

Lemma pretty_N_go_units (x : N) (s : string) :
  string_forallb is_pid_unit s = true →
  string_forallb is_pid_unit (pretty_N_go x s) = true.
Proof.
  revert s. induction (N.lt_wf_0 x) as [x _ IH]; intros s Hs.
  destruct (decide (x = 0)%N) as [->|Hx].
  - by rewrite pretty_N_go_0.
  - rewrite pretty_N_go_step by lia. apply IH.
    + apply N.div_lt; lia.
    + simpl. rewrite Hs, andb_true_r.
      unfold pretty_N_char. by repeat case_match.
Qed.

Lemma Z_toString_units (n : Z) : string_forallb is_pid_unit (Z_toString n) = true.
Proof.
  assert (∀ p : positive, string_forallb is_pid_unit (pretty p) = true) as Hpos.
  { intros p. unfold pretty, pretty_positive, pretty, pretty_N.
    case_decide; [done|]. by apply pretty_N_go_units. }
  unfold Z_toString, pretty, pretty_Z. destruct n as [|p|p]; [done|apply Hpos|].
  rewrite string_forallb_app. by rewrite Hpos.
Qed.

End StringFacts.

Module FilterFacts.
Import JS Provider Table Spec Sample StringFacts.

Lemma contains_ci_includes (field term : string) :
  contains_ci field term ↔ includes (toLowerCase field) (toLowerCase term) = true.
Proof.
  rewrite includes_spec. unfold contains_ci, toLowerCase. split.
  - intros (pre & mid & post & -> & Hmid).
    exists (string_map toLowerCase_unit pre), (string_map toLowerCase_unit post).
    by rewrite !string_map_app, Hmid.
  - intros (a & b & H).
    apply string_map_split in H as (pre & rest & -> & Hpre & H).
    apply string_map_split in H as (mid & post & -> & Hmid & Hpost).
    by exists pre, mid, post.
Qed.

#[global] Instance contains_ci_dec : RelDecision contains_ci.
Proof.
  intros field term.
  destruct (includes (toLowerCase field) (toLowerCase term)) eqn:E.
  - left. by apply contains_ci_includes.
  - right. rewrite contains_ci_includes. congruence.
Defined.

(** On the decimal text of a pid, matching up to case is plain matching:
    the text has digits and a sign only, and no other unit lower-cases to
    one of these. *)
Lemma contains_ci_pid (n : Z) (term : string) :
  contains_ci (Z_toString n) term ↔ includes (Z_toString n) term = true.
Proof.
  rewrite includes_spec. split.
  - intros (pre & mid & post & Heq & Hmid).
    assert (string_forallb is_pid_unit mid = true) as Hunits.
    { pose proof (Z_toString_units n) as H. rewrite Heq in H.
      rewrite !string_forallb_app in H.
      by apply andb_true_iff in H as [_ [H _]%andb_true_iff]. }
    assert (term = mid) as ->; [|by exists pre, post].
    rewrite <-(toLowerCase_pid_fixed mid Hunits) in Hunits |- *.
    rewrite Hmid in Hunits |- *. symmetry. by apply toLowerCase_pid_reflect.
  - intros (a & b & ->). by exists a, term, b.
Qed.

Lemma matchesSearch_spec (term : string) (p : Process) :
  matchesSearch term p = true ↔ matchesSpec term p.
Proof.
  unfold matchesSearch, matchesSpec.
  rewrite !orb_true_iff, contains_ci_pid, !contains_ci_includes. tauto.
Qed.

Lemma matchesSearch_empty (p : Process) : matchesSearch "" p = true.
Proof.
  unfold matchesSearch. rewrite (includes_empty (Z_toString _)).
  by rewrite orb_true_r.
Qed.

(** Over strings of 8-bit code units, all within Latin-1, the filtered
    sequence holds exactly the records one of whose name, decimal pid,
    status or user contains the search term as a case-insensitive
    substring, in their original order; the empty search term keeps the
    whole list. ([Utf16Facts] has the same over 16-bit code units, and
    what becomes of it beyond Latin-1.) *)
Lemma filteredProcesses_spec (processes : list Process) (term : string) :
  filteredProcesses processes term = filter (matchesSpec term) processes ∧
  filteredProcesses processes "" = processes.
Proof.
  unfold filteredProcesses. split.
  - induction processes as [|p l IH]; [done|].
    simpl. rewrite filter_cons, IH.
    destruct (matchesSearch term p) eqn:E.
    + rewrite decide_True; [done|]. by apply matchesSearch_spec.
    + rewrite decide_False; [done|]. rewrite <-matchesSearch_spec. congruence.
  - induction processes as [|p l IH]; [done|].
    simpl. by rewrite matchesSearch_empty, IH.
Qed.

(** The search scenario: [node] keeps the record named [node] and drops
    [notepad++]; the match ignores case and also looks into the pid. *)
Example search_node :
  filteredProcesses [nodeProcess; notepadProcess] "node" = [nodeProcess] ∧
  filteredProcesses [nodeProcess; notepadProcess] "NoDe" = [nodeProcess] ∧
  filteredProcesses [nodeProcess; notepadProcess] "04" = [nodeProcess] ∧
  filteredProcesses [nodeProcess; notepadProcess] "ADMIN" = [notepadProcess] ∧
  filteredProcesses [nodeProcess; notepadProcess] "no" = [nodeProcess; notepadProcess].
Proof. repeat split. Qed.

End FilterFacts.

Module Utf16Facts.
Import JS Provider Table Spec Sample StringFacts Utf16.


Lemma startsWith_prefix (s t : String16) :
  startsWith s t = true ↔ ∃ b, s = t ++ b.
Proof.
  revert s. induction t as [|b t IH]; intros s.
  - destruct s; simpl; split; eauto.
  - destruct s as [|a s]; simpl.
    { split; [done|]. by intros [? [=]]. }
    destruct (N.eqb_spec a b) as [->|Hne].
    + rewrite IH. split; intros [c Hc]; exists c; [by rewrite Hc|by injection Hc].
    + split; [done|]. intros [c Hc]. by injection Hc.
Qed.

Lemma includes_pieces (s t : String16) :
  includes s t = true ↔ ∃ a b, s = a ++ t ++ b.
Proof.
  induction s as [|u s IH]; cbn [includes].
  - rewrite orb_false_r, startsWith_prefix. split.
    + intros [b ->]. by exists [], b.
    + intros (a & b & H). symmetry in H.
      apply app_eq_nil in H as [-> H]. exists b. by rewrite H.
  - rewrite orb_true_iff, startsWith_prefix, IH. split.
    + intros [[b Hb]|(a & b & ->)]; [by exists [], b|by exists (u :: a), b].
    + intros ([|v a] & b & H); [left; by exists b|].
      right. injection H as -> ->. by exists a, b.
Qed.


Lemma includes_trans16 (s t u : String16) :
  includes s t = true → includes t u = true → includes s u = true.
Proof.
  rewrite !includes_pieces. intros (a & b & ->) (c & d & ->).
  exists (a ++ c), (d ++ b). by rewrite <-!(assoc_L (++)).
Qed.

Lemma inits_prefix (s a : String16) : a ∈ inits s ↔ ∃ b, s = a ++ b.
Proof.
  revert a. induction s as [|u s IH]; intros a; simpl.
  - rewrite list_elem_of_singleton. split; [intros ->; by exists []|].
    intros [b H]. symmetry in H. by apply app_eq_nil in H as [-> _].
  - rewrite elem_of_cons, list_elem_of_fmap. split.
    + intros [->|(a' & -> & [b ->]%IH)]; [by eexists|by exists b].
    + intros [b H]. destruct a as [|v a]; [by left|].
      right. injection H as -> ->. exists a. split; [done|]. apply IH. by exists b.
Qed.

Lemma pieces_spec (s mid : String16) :
  mid ∈ pieces s ↔ ∃ pre post, s = pre ++ mid ++ post.
Proof.
  induction s as [|u s IH]; cbn [pieces]; rewrite elem_of_app, inits_prefix.
  - split.
    + intros [[b ->]|?%elem_of_nil]; [by exists [], b|done].
    + intros (pre & post & H). left. symmetry in H.
      apply app_eq_nil in H as [-> H]. exists post. by rewrite H.
  - rewrite IH. split.
    + intros [[b Hb]|(pre & post & ->)]; [by exists [], b|by exists (u :: pre), post].
    + intros ([|v pre] & post & H); [left; by exists post|].
      right. injection H as -> ->. by exists pre, post.
Qed.

#[global] Instance contains_ci16_dec (toLowerCase : String16 → String16)
    (field term : String16) : Decision (contains_ci toLowerCase field term).
Proof.
  refine (cast_if (decide (Exists (λ mid, toLowerCase mid = toLowerCase term)
                             (pieces field)))); unfold contains_ci.
  - apply Exists_exists in e as (mid & (pre & post & ->)%pieces_spec & Hmid).
    by exists pre, mid, post.
  - intros (pre & mid & post & Hfield & Hmid). apply n, Exists_exists.
    exists mid. split; [|done]. apply pieces_spec. by exists pre, post.
Defined.

#[global] Instance matchesSpec16_dec (toLowerCase : String16 → String16)
    (term : String16) (p : Process) : Decision (matchesSpec toLowerCase term p).
Proof. unfold matchesSpec. apply _. Defined.

(** *** Within Latin-1 *)

Lemma units_latin1 (s : string) : latin1 (units s).
Proof.
  induction s as [|c s IH]; [by constructor|]. constructor; [|done].
  apply N_ascii_bounded.
Qed.





Section Lowering.
Variable toLowerCase : String16 → String16.
Hypothesis toLowerCase_latin1_strings : lowers_latin1 toLowerCase.




End Lowering.




(** *** The sample lower-casing *)





(** *** The filter over 8-bit strings is the filter over 16-bit ones *)

Lemma toLowerCase_units (s : string) :
  units (JS.toLowerCase s) = toLowerCase_latin1 <$> units s.
Proof.
  unfold JS.toLowerCase. induction s as [|c s IH]; [done|].
  simpl. rewrite IH. f_equal.
  by destruct c as [[] [] [] [] [] [] [] []].
Qed.

Lemma startsWith_units (s t : string) :
  startsWith (units s) (units t) = JS.startsWith s t.
Proof.
  revert s. induction t as [|b t IH]; intros [|a s]; simpl; try done.
  rewrite IH. destruct (Ascii.eqb_spec a b) as [->|Hne].
  - by rewrite N.eqb_refl.
  - destruct (N.eqb_spec (N_of_ascii a) (N_of_ascii b)) as [Heq|]; [|done].
    destruct Hne. by rewrite <-(ascii_N_embedding a), Heq, ascii_N_embedding.
Qed.

Lemma includes_units (s t : string) :
  includes (units s) (units t) = JS.includes s t.
Proof.
  induction s as [|a s IH].
  - change (startsWith (units "") (units t) || false = JS.startsWith "" t || false).
    by rewrite startsWith_units.
  - change (startsWith (units (String a s)) (units t) || includes (units s) (units t)
            = JS.startsWith (String a s) t || JS.includes s t).
    by rewrite IH, startsWith_units.
Qed.

(** On the records of 8-bit strings the two embeddings of the filter
    agree, for every lower-casing of the runtime that is unit by unit
    within Latin-1. *)
Lemma filteredProcesses_widen (toLowerCase : String16 → String16)
    (processes : list Provider.Process) (term : string) :
  lowers_latin1 toLowerCase →
  filteredProcesses toLowerCase (widen <$> processes) (units term)
  = widen <$> Table.filteredProcesses processes term.
Proof.
  intros Hlower.
  assert (∀ s, toLowerCase (units s) = units (JS.toLowerCase s)) as Hlow.
  { intros s. rewrite toLowerCase_units. apply Hlower, units_latin1. }
  assert (∀ p, matchesSearch toLowerCase (units term) (widen p)
               = Table.matchesSearch term p) as Hmatch.
  { intros p. unfold matchesSearch, Table.matchesSearch, Z_toString. simpl.
    by rewrite !Hlow, !includes_units. }
  unfold filteredProcesses, Table.filteredProcesses.
  induction processes as [|p l IH]; [done|].
  rewrite fmap_cons. simpl. rewrite Hmatch, IH.
  by destruct (Table.matchesSearch term p).
Qed.

End Utf16Facts.

Module SortFacts.
Import JS.

Section Sort.
Context {A : Type} (comparefn : A → A → number).

Local Abbreviation keeps := (keeps comparefn).
Local Abbreviation tie := (tie comparefn).

Lemma sort_insert_perm (x : A) (l : list A) : sort_insert comparefn x l ≡ₚ x :: l.
Proof.
  induction l as [|y l IH]; [done|]. simpl. case_decide; [|done].
  rewrite IH. apply Permutation_swap.
Qed.

Lemma sort_perm (l : list A) : sort comparefn l ≡ₚ l.
Proof.
  induction l as [|x l IH]; [done|]. simpl. by rewrite sort_insert_perm, IH.
Qed.

Lemma sort_length (l : list A) : length (sort comparefn l) = length l.
Proof. apply Permutation_length, sort_perm. Qed.

(** Stability, in its general form: the elements of a class [P] whose
    members the comparator never asks to swap keep their order. *)
Lemma sort_insert_filter (P : A → Prop) `{!∀ a, Decision (P a)} (x : A) (l : list A) :
  (∀ y, y ∈ l → P x → P y → keeps x y) →
  filter P (sort_insert comparefn x l) = filter P (x :: l).
Proof.
  induction l as [|y l IH]; intros Hclass; [done|].
  simpl. case_decide as Hgt; [|done].
  rewrite filter_cons, IH by (intros; apply Hclass; [by right|done..]).
  rewrite !filter_cons.
  destruct (decide (P x)) as [Hx|]; [|done].
  destruct (decide (P y)) as [Hy|]; [|done].
  destruct (Hclass y) as []; [by left|done..].
Qed.

Lemma sort_filter (P : A → Prop) `{!∀ a, Decision (P a)} (l : list A) :
  (∀ x y, P x → P y → keeps x y) →
  filter P (sort comparefn l) = filter P l.
Proof.
  intros Hclass. induction l as [|x l IH]; [done|]. simpl.
  rewrite sort_insert_filter by auto. by rewrite !filter_cons, IH.
Qed.

(** Order, for a comparator that is consistent: [keeps] is transitive, and
    of two elements the comparator asks to swap, the swapped pair is kept. *)
Hypothesis keeps_trans : ∀ a b c, keeps a b → keeps b c → keeps a c.
Hypothesis swap_keeps : ∀ a b, (0 < comparefn a b)%Qc → keeps b a.

Lemma sort_insert_sorted (x : A) (l : list A) :
  StronglySorted keeps l → StronglySorted keeps (sort_insert comparefn x l).
Proof.
  induction 1 as [|y l Hl IH Hy]; simpl.
  - by repeat constructor.
  - case_decide as Hgt.
    + constructor; [done|].
      rewrite sort_insert_perm. constructor; [by apply swap_keeps|done].
    + constructor; [by constructor|].
      constructor; [done|].
      eapply Forall_impl; [exact Hy|]. intros z Hz. by eapply keeps_trans.
Qed.

Lemma sort_sorted (l : list A) : StronglySorted keeps (sort comparefn l).
Proof.
  induction l as [|x l IH]; simpl; [constructor|]. by apply sort_insert_sorted.
Qed.

(** The insertion sort is a stable sort, and the stable sort of a list is
    unique: whatever algorithm an engine runs, [a.sort(comparefn)] is
    [sort comparefn a]. *)
Hypothesis keeps_refl : ∀ a, keeps a a.

Lemma sort_stable_sort_of (l : list A) : stable_sort_of comparefn l (sort comparefn l).
Proof.
  split; [apply sort_perm|]. split; [apply sort_sorted|].
  intros x. apply sort_filter. intros a b [_ Hax] [Hxb _]. by eapply keeps_trans.
Qed.

Lemma sorted_head_least (a : A) (l l' : list A) :
  StronglySorted keeps (a :: l) → a :: l ≡ₚ l' → ∀ b, b ∈ l' → keeps a b.
Proof.
  intros Hs Hp b Hb. rewrite <-Hp in Hb. inversion Hs as [|? ? _ Ha]; subst.
  apply elem_of_cons in Hb as [->|Hb]; [apply keeps_refl|].
  by eapply (proj1 (Forall_forall _ _) Ha).
Qed.

Lemma stable_sorted_unique (l1 l2 : list A) :
  l1 ≡ₚ l2 → StronglySorted keeps l1 → StronglySorted keeps l2 →
  (∀ x, filter (tie x) l1 = filter (tie x) l2) → l1 = l2.
Proof.
  revert l2. induction l1 as [|a r1 IH]; intros l2 Hp Hs1 Hs2 Hf.
  - by apply Permutation_nil_l in Hp.
  - destruct l2 as [|b r2]; [by apply Permutation_nil_r in Hp|].
    assert (tie a b) as Hab.
    { split.
      - eapply sorted_head_least; [exact Hs1|exact Hp|by left].
      - eapply sorted_head_least; [exact Hs2|symmetry; exact Hp|by left]. }
    assert (a = b) as <-.
    { specialize (Hf a). rewrite !filter_cons in Hf.
      rewrite decide_True in Hf by (split; apply keeps_refl).
      rewrite decide_True in Hf by done. by injection Hf. }
    f_equal. apply IH.
    + by apply Permutation_cons_inv in Hp.
    + by inversion Hs1.
    + by inversion Hs2.
    + intros x. specialize (Hf x). rewrite !filter_cons in Hf.
      destruct (decide (tie x a)); [by injection Hf|done].
Qed.

Lemma stable_sort_unique (l sorted : list A) :
  stable_sort_of comparefn l sorted → sorted = sort comparefn l.
Proof.
  intros (Hp & Hs & Hf). destruct (sort_stable_sort_of l) as (Hp' & Hs' & Hf').
  apply stable_sorted_unique; [by rewrite Hp, Hp'|done..|].
  intros x. by rewrite Hf, Hf'.
Qed.

End Sort.
End SortFacts.

Module OrderFacts.
Import JS Provider Table Spec SortFacts.

Lemma ascii_compare_lt (a b : ascii) :
  Ascii.compare a b = Lt ↔ (N_of_ascii a < N_of_ascii b)%N.
Proof. unfold Ascii.compare. by rewrite N.compare_lt_iff. Qed.

Lemma ascii_compare_gt (a b : ascii) :
  Ascii.compare a b = Gt ↔ (N_of_ascii b < N_of_ascii a)%N.
Proof. unfold Ascii.compare. by rewrite N.compare_gt_iff. Qed.

Lemma ascii_compare_eq (a b : ascii) : Ascii.compare a b = Eq ↔ a = b.
Proof.
  split; [apply Ascii.compare_eq_iff|]. intros ->.
  unfold Ascii.compare. apply N.compare_refl.
Qed.

Lemma string_compare_cons (x y : ascii) (a b : string) :
  String.compare (String x a) (String y b) =
  match Ascii.compare x y with Eq => String.compare a b | o => o end.
Proof. simpl. by destruct (Ascii.compare x y). Qed.

Lemma string_leb_refl (a : string) : String.leb a a = true.
Proof.
  unfold String.leb. induction a as [|x a IH]; [done|].
  rewrite string_compare_cons.
  by rewrite (proj2 (ascii_compare_eq x x) eq_refl).
Qed.

Lemma string_leb_trans (a b c : string) :
  String.leb a b = true → String.leb b c = true → String.leb a c = true.
Proof.
  unfold String.leb. revert b c.
  induction a as [|x a IH]; intros [|y b] [|z c]; try done.
  rewrite !string_compare_cons.
  destruct (Ascii.compare x y) eqn:Exy; [| |done];
    destruct (Ascii.compare y z) eqn:Eyz; try done.
  - apply ascii_compare_eq in Exy as ->, Eyz as ->.
    rewrite (proj2 (ascii_compare_eq z z) eq_refl). apply IH.
  - apply ascii_compare_eq in Exy as ->. by rewrite Eyz.
  - apply ascii_compare_eq in Eyz as ->. by rewrite Exy.
  - pose proof (proj1 (ascii_compare_lt _ _) Exy) as Hxy.
    pose proof (proj1 (ascii_compare_lt _ _) Eyz) as Hyz.
    assert (Ascii.compare x z = Lt) as ->; [|done].
    apply ascii_compare_lt. lia.
Qed.

Lemma string_ltb_leb (a b : string) :
  String.ltb b a = false ↔ String.leb a b = true.
Proof.
  unfold String.ltb, String.leb. rewrite (String.compare_antisym a b).
  destruct (String.compare b a); simpl; split; done.
Qed.

Lemma string_ltb_asym (a b : string) :
  String.ltb a b = true → String.ltb b a = false.
Proof.
  unfold String.ltb. rewrite (String.compare_antisym b a).
  by destruct (String.compare a b).
Qed.

(** The comparison of two values of one field. *)
Lemma field_le_lt (k : ProcessKey) (a b : Process) :
  value_le (field k a) (field k b) ↔ js_lt (field k b) (field k a) = false.
Proof.
  destruct k; simpl; unfold string_lt;
    rewrite ?string_ltb_leb, ?bool_decide_eq_false, <-?Qcle_ngt; done.
Qed.

Lemma field_lt_asym (k : ProcessKey) (a b : Process) :
  js_lt (field k a) (field k b) = true → js_lt (field k b) (field k a) = false.
Proof.
  destruct k; simpl; unfold string_lt; try apply string_ltb_asym;
    rewrite bool_decide_eq_true, bool_decide_eq_false;
    intros H1 H2; by destruct (Qclt_not_le _ _ H1); apply Qclt_le_weak.
Qed.

Lemma field_le_trans (k : ProcessKey) (a b c : Process) :
  value_le (field k a) (field k b) → value_le (field k b) (field k c) →
  value_le (field k a) (field k c).
Proof.
  destruct k; simpl; try apply string_leb_trans; apply Qcle_trans.
Qed.

Lemma field_le_total (k : ProcessKey) (a b : Process) :
  value_le (field k a) (field k b) ∨ value_le (field k b) (field k a).
Proof.
  destruct k; simpl; try apply String.leb_total;
    destruct (Qclt_le_dec (Qc_of_Z 0) (Qc_of_Z 0)); apply Qc_le_total.
Qed.

Lemma field_le_antisym (k : ProcessKey) (a b : Process) :
  value_le (field k a) (field k b) → value_le (field k b) (field k a) →
  field k a = field k b.
Proof.
  destruct k; simpl; intros H1 H2; f_equal;
    try (by apply String.leb_antisym); by apply Qcle_antisym.
Qed.

Lemma field_le_refl (k : ProcessKey) (a : Process) : value_le (field k a) (field k a).
Proof. destruct k; simpl; try apply string_leb_refl; apply Qcle_refl. Qed.

Lemma Qc_of_Z_pos (n : Z) : (0 < Qc_of_Z n)%Qc ↔ 0 < n.
Proof. by rewrite <-Z2Qc_inj_0, <-Z2Qc_inj_lt. Qed.

(** What the comparator of the table asks to keep. *)
Lemma compareProcesses_keeps (cfg : SortConfig) (a b : Process) :
  keeps (compareProcesses cfg) a b ↔
  match direction cfg with
  | ascending => value_le (field (key cfg) a) (field (key cfg) b)
  | descending => value_le (field (key cfg) b) (field (key cfg) a)
  end.
Proof.
  unfold keeps, compareProcesses.
  pose proof (field_lt_asym (key cfg) a b) as Hab.
  pose proof (field_lt_asym (key cfg) b a) as Hba.
  destruct (direction cfg); rewrite field_le_lt;
    destruct (js_lt (field (key cfg) a) (field (key cfg) b)),
      (js_lt (field (key cfg) b) (field (key cfg) a));
    rewrite Qc_of_Z_pos; try (specialize (Hab eq_refl)); try (specialize (Hba eq_refl));
    split; (done || lia).
Qed.

End OrderFacts.

Module TableSortFacts.
Import JS Provider Table Spec Sample SortFacts OrderFacts.

Lemma StronglySorted_weaken {A} (R R' : A → A → Prop) (l : list A) :
  (∀ x y, R x y → R' x y) → StronglySorted R l → StronglySorted R' l.
Proof.
  intros HR. induction 1 as [|x l Hl IH Hx]; constructor; [done|].
  eapply Forall_impl; [exact Hx|]. auto.
Qed.

Lemma compareProcesses_keeps_trans (cfg : SortConfig) (a b c : Process) :
  keeps (compareProcesses cfg) a b → keeps (compareProcesses cfg) b c →
  keeps (compareProcesses cfg) a c.
Proof.
  rewrite !compareProcesses_keeps. destruct (direction cfg); intros H1 H2.
  - by eapply field_le_trans.
  - by eapply field_le_trans.
Qed.

Lemma compareProcesses_swap_keeps (cfg : SortConfig) (a b : Process) :
  (0 < compareProcesses cfg a b)%Qc → keeps (compareProcesses cfg) b a.
Proof.
  intros Hgt. assert (¬ keeps (compareProcesses cfg) a b) as Hn by (unfold keeps; tauto).
  rewrite compareProcesses_keeps in *.
  destruct (direction cfg), (field_le_total (key cfg) a b); tauto.
Qed.

Lemma sortedProcesses_ordered (filtered : list Process) (cfg : SortConfig) :
  match direction cfg with
  | ascending => ascending_by (key cfg) (sortedProcesses filtered cfg)
  | descending => descending_by (key cfg) (sortedProcesses filtered cfg)
  end.
Proof.
  pose proof (sort_sorted (compareProcesses cfg)
    (compareProcesses_keeps_trans cfg) (compareProcesses_swap_keeps cfg) filtered) as H.
  unfold ascending_by, descending_by, sortedProcesses.
  destruct (direction cfg) eqn:Hdir;
    (eapply StronglySorted_weaken; [|exact H]);
    intros x y Hxy; apply compareProcesses_keeps in Hxy; by rewrite Hdir in Hxy.
Qed.

Lemma sortedProcesses_stable (filtered : list Process) (cfg : SortConfig) (v : value) :
  with_key (key cfg) v (sortedProcesses filtered cfg) = with_key (key cfg) v filtered.
Proof.
  unfold with_key, sortedProcesses. apply sort_filter.
  intros x y Hx Hy. apply compareProcesses_keeps.
  destruct (direction cfg); rewrite Hx, <-Hy; apply field_le_refl.
Qed.

Lemma handleSort_fresh (k : ProcessKey) (cfg : SortConfig) :
  ¬ (key cfg = k ∧ direction cfg = ascending) →
  handleSort k cfg = {| key := k; direction := ascending |}.
Proof.
  intros H. unfold handleSort.
  destruct (bool_decide (key cfg = k)) eqn:E1; [|done].
  destruct (bool_decide (direction cfg = ascending)) eqn:E2; [|done].
  apply bool_decide_eq_true in E1, E2. tauto.
Qed.

Lemma handleSort_ascending (k : ProcessKey) :
  handleSort k {| key := k; direction := ascending |} = {| key := k; direction := descending |}.
Proof. unfold handleSort. simpl. by rewrite !bool_decide_eq_true_2. Qed.

(** C2, as amended. The sort is stable: the records with one value of the
    sort key keep the relative order they had in the filtered list. And
    from a sort configuration other than (this key, ascending), the initial
    one for instance, toggling the key twice gives first the ascending and
    then the descending order of that key. *)
Theorem sort_stable_and_toggle (filtered : list Process) (cfg : SortConfig) (k : ProcessKey) :
  ¬ (key cfg = k ∧ direction cfg = ascending) →
  (∀ cfg' v, with_key (key cfg') v (sortedProcesses filtered cfg')
             = with_key (key cfg') v filtered) ∧
  handleSort k cfg = {| key := k; direction := ascending |} ∧
  ascending_by k (sortedProcesses filtered (handleSort k cfg)) ∧
  handleSort k (handleSort k cfg) = {| key := k; direction := descending |} ∧
  descending_by k (sortedProcesses filtered (handleSort k (handleSort k cfg))).
Proof.
  intros Hfresh. rewrite (handleSort_fresh k cfg Hfresh), handleSort_ascending.
  split; [intros; apply sortedProcesses_stable|].
  split; [done|]. split; [|split; [done|]].
  - apply (sortedProcesses_ordered filtered {| key := k; direction := ascending |}).
  - apply (sortedProcesses_ordered filtered {| key := k; direction := descending |}).
Qed.

Lemma sort_stable_and_toggle_witness :
  ¬ (key (sortConfig initialView) = K_name ∧ direction (sortConfig initialView) = ascending) ∧
  handleSort K_name (handleSort K_name (sortConfig initialView))
  = {| key := K_name; direction := descending |}.
Proof.
  assert (¬ (key (sortConfig initialView) = K_name ∧
             direction (sortConfig initialView) = ascending)) as H.
  { simpl. intros [H _]. discriminate H. }
  split; [exact H|].
  exact (proj1 (proj2 (proj2 (proj2 (sort_stable_and_toggle [] _ K_name H))))).
Defined.

(** Without the condition on the configuration the toggle property fails:
    once the key is the active one, ascending (after one click on the pid
    header), two more clicks give the descending and then the ascending
    order. *)
Lemma handleSort_twice_counterexample :
  let cfg := handleSort K_pid (sortConfig initialView) in
  direction (handleSort K_pid cfg) = descending ∧
  direction (handleSort K_pid (handleSort K_pid cfg)) = ascending ∧
  ¬ (direction (handleSort K_pid cfg) = ascending ∧
     direction (handleSort K_pid (handleSort K_pid cfg)) = descending).
Proof. repeat split. intros [H _]. discriminate H. Qed.

(** The table's comparator is consistent, so its sort is the stable sort. *)
Lemma sortedProcesses_unique (filtered sorted : list Process) (cfg : SortConfig) :
  stable_sort_of (compareProcesses cfg) filtered sorted →
  sorted = sortedProcesses filtered cfg.
Proof.
  apply stable_sort_unique.
  - apply compareProcesses_keeps_trans.
  - apply compareProcesses_swap_keeps.
  - intros a. apply compareProcesses_keeps. destruct (direction cfg); apply field_le_refl.
Qed.

(** Three records sorted by memory, both ways, and by name, where the two
    records named [node] keep their order. *)
Example sortedProcesses_sample :
  let a := sampleProcess 0 "node" in
  let b := sampleProcess 1 "zsh" in
  let c := sampleProcess 2 "node" in
  sortedProcesses [b; a; c] {| key := K_memoryKb; direction := descending |} = [a; b; c] ∧
  sortedProcesses [b; a; c] {| key := K_memoryKb; direction := ascending |} = [c; b; a] ∧
  sortedProcesses [c; b; a] {| key := K_name; direction := ascending |} = [c; a; b] ∧
  sortedProcesses [c; b; a] {| key := K_name; direction := descending |} = [b; c; a] ∧
  sortedProcesses [c; b; a] {| key := K_status; direction := descending |} = [c; b; a].
Proof. repeat split. Qed.

End TableSortFacts.

Module PageFacts.
Import JS Provider Table Spec Sample.

(** [Math.ceil(a / b)] on two integers, [b] positive, in integer terms. *)
Lemma Math_ceil_div (a : Z) (b : positive) :
  Math_ceil (Qc_of_Z a / Qc_of_Z (Z.pos b))%Qc = - ((- a) `div` Z.pos b).
Proof.
  unfold Math_ceil.
  transitivity (Qceiling (inject_Z a / inject_Z (Z.pos b))%Q).
  - apply Qceiling_comp. unfold Qcdiv, Qcmult, Qcinv, Q2Qc; simpl.
    rewrite !Qred_correct. reflexivity.
  - unfold Qceiling, Qfloor, Qdiv, Qmult, Qinv, Qopp, inject_Z; simpl.
    by rewrite Z.mul_1_r.
Qed.

Lemma totalPages_div (sorted : list Process) :
  totalPages sorted = (Z.of_nat (length sorted) + 9) `div` 10.
Proof.
  unfold totalPages, itemsPerPage. rewrite Math_ceil_div.
  generalize (Z.of_nat (length sorted)). intros L.
  Z.div_mod_to_equations. lia.
Qed.

Lemma totalPages_bounds (sorted : list Process) :
  10 * (totalPages sorted - 1) < Z.of_nat (length sorted) ≤ 10 * totalPages sorted.
Proof. rewrite totalPages_div. Z.div_mod_to_equations. lia. Qed.

(** [slice] between two indices in order, the first not negative. *)
Lemma slice_nonneg {A} (a : list A) (start end_ : Z) :
  0 ≤ start ≤ end_ →
  slice a start end_ = take (Z.to_nat (end_ - start)) (drop (Z.to_nat start) a).
Proof.
  intros H. unfold slice.
  rewrite !decide_False by lia.
  destruct (decide (start ≤ Z.of_nat (length a))) as [Hin|Hout].
  - rewrite (Z.min_l start) by done.
    destruct (decide (end_ ≤ Z.of_nat (length a))).
    + by rewrite Z.min_l by done.
    + rewrite Z.min_r by lia.
      rewrite !take_ge; [done|rewrite length_drop; lia..].
  - rewrite !Z.min_r by lia.
    rewrite !drop_ge by lia. by rewrite !take_nil.
Qed.

Lemma paginatedProcesses_take_drop (sorted : list Process) (p : Z) :
  1 ≤ p →
  paginatedProcesses sorted p = take 10 (drop (Z.to_nat (10 * (p - 1))) sorted).
Proof.
  intros Hp. unfold paginatedProcesses, itemsPerPage.
  rewrite slice_nonneg by lia. f_equal; [lia|f_equal; lia].
Qed.

Lemma paginatedProcesses_lookup (sorted : list Process) (p : Z) (i : nat) :
  1 ≤ p →
  paginatedProcesses sorted p !! i =
  if decide (i < 10)%nat then sorted !! (Z.to_nat (10 * (p - 1)) + i)%nat else None.
Proof.
  intros Hp. rewrite paginatedProcesses_take_drop by done.
  case_decide.
  - by rewrite lookup_take_lt, lookup_drop by done.
  - rewrite lookup_take_ge; [done|lia].
Qed.

Lemma paginatedProcesses_length (sorted : list Process) (p : Z) :
  1 ≤ p →
  Z.of_nat (length (paginatedProcesses sorted p)) =
  Z.max 0 (Z.min 10 (Z.of_nat (length sorted) - 10 * (p - 1))).
Proof.
  intros Hp. rewrite paginatedProcesses_take_drop by done.
  rewrite length_take, length_drop. lia.
Qed.

Example slice_sample :
  slice [1; 2; 3; 4; 5] 1 3 = [2; 3] ∧
  slice [1; 2; 3; 4; 5] 3 10 = [4; 5] ∧
  slice [1; 2; 3; 4; 5] 10 20 = [] ∧
  slice [1; 2; 3; 4; 5] (-2) 5 = [4; 5] ∧
  slice [1; 2; 3; 4; 5] (-10) 0 = [] ∧
  slice [1; 2; 3; 4; 5] 3 1 = [].
Proof. repeat split. Qed.

Example totalPages_sample :
  totalPages [] = 0 ∧
  totalPages elevenProcesses = 2 ∧
  totalPages (take 10 elevenProcesses) = 1 ∧
  totalPages twentyFiveProcesses = 3.
Proof. repeat split. Qed.

End PageFacts.

Module WindowFacts.
Import JS Provider Table Spec.

Lemma pageNumbers_seqZ (T c : Z) :
  pageNumbers T c = seqZ (pageNum T c 0) (Z.min 5 T).
Proof.
  unfold pageNumbers, Array_from, Math_min.
  rewrite <-(Z.add_0_r (pageNum T c 0)), <-fmap_add_seqZ.
  apply list_fmap_ext. intros _ i _. unfold pageNum. repeat case_decide; lia.
Qed.

(** C9. For a current page within the pages, the window lists min(5, T)
    consecutive page numbers, all within the pages, the current one among
    them; it is centred on the current page when that is more than two
    pages away from both ends, and is the first five or the last five
    pages otherwise. *)
Theorem pageNumbers_spec (T c : Z) :
  1 ≤ c ≤ T →
  let w := pageNumbers T c in
  Z.of_nat (length w) = Z.min 5 T ∧
  (∃ first, w = seqZ first (Z.min 5 T)) ∧
  Forall (λ n, 1 ≤ n ≤ T) w ∧
  c ∈ w ∧
  (T > 5 → 3 < c < T - 2 → w = seqZ (c - 2) 5) ∧
  (T > 5 → c ≤ 3 → w = seqZ 1 5) ∧
  (T > 5 → T - 2 ≤ c → w = seqZ (T - 4) 5) ∧
  (T ≤ 5 → w = seqZ 1 T).
Proof.
  intros Hc w. subst w. rewrite pageNumbers_seqZ.
  split; [rewrite length_seqZ; lia|].
  split; [by eexists|].
  split; [apply Forall_forall; intros n Hn; apply elem_of_seqZ in Hn;
          unfold pageNum in Hn; repeat case_decide; lia|].
  split; [apply elem_of_seqZ; unfold pageNum; repeat case_decide; lia|].
  unfold pageNum.
  repeat split; intros; repeat case_decide; try lia; f_equal; lia.
Qed.

Lemma pageNumbers_spec_witness :
  1 ≤ 5 ≤ 10 ∧ pageNumbers 10 5 = [3; 4; 5; 6; 7] ∧ 5 ∈ pageNumbers 10 5.
Proof.
  assert (1 ≤ 5 ≤ 10) as H by (split; discriminate).
  split; [exact H|].
  pose proof (pageNumbers_spec 10 5 H) as (_ & _ & _ & Hin & Hmid & _).
  split; [|exact Hin].
  apply Hmid; [reflexivity|split; reflexivity].
Defined.

Example pageNumbers_sample :
  pageNumbers 3 2 = [1; 2; 3] ∧
  pageNumbers 10 1 = [1; 2; 3; 4; 5] ∧
  pageNumbers 10 3 = [1; 2; 3; 4; 5] ∧
  pageNumbers 10 4 = [2; 3; 4; 5; 6] ∧
  pageNumbers 10 7 = [5; 6; 7; 8; 9] ∧
  pageNumbers 10 8 = [6; 7; 8; 9; 10] ∧
  pageNumbers 10 10 = [6; 7; 8; 9; 10] ∧
  pageNumbers 0 1 = [].
Proof. repeat split. Qed.

End WindowFacts.

Module NavigationFacts.
Import JS Provider Table Spec Sample PageFacts WindowFacts.

Lemma pageNumbers_positive (T c n : Z) : n ∈ pageNumbers T c → 1 ≤ n.
Proof.
  rewrite pageNumbers_seqZ, elem_of_seqZ. unfold pageNum.
  repeat case_decide; lia.
Qed.

Lemma paginationShown_pages (sorted : list Process) :
  paginationShown sorted = true → 2 ≤ totalPages sorted.
Proof.
  unfold paginationShown, itemsPerPage. rewrite bool_decide_eq_true.
  pose proof (totalPages_bounds sorted). lia.
Qed.

(** In every state the table reaches, the current page is at least 1. *)
Lemma reachable_page_positive (s : list Process * ViewState) :
  reachable s → 1 ≤ currentPage s.2.
Proof.
  induction 1 as [|s s' _ IH Hstep]; [done|].
  destruct Hstep as [| | | |processes v Hshown|n processes v Hshown Hn]; simpl in *;
    try done.
  - unfold paginationPrevious, Math_max. lia.
  - apply paginationShown_pages in Hshown.
    unfold paginationNext, Math_min. lia.
  - by eapply pageNumbers_positive.
Qed.

(** C3, as amended. The page count is the ceiling of the length over the
    page size; page [p] shows the items of index [10 (p - 1)] to [10 p]
    exclusive, ten of them on every page but the last, which has the
    remainder (ten when the length is a multiple of ten); previous never
    goes below page 1 and next never beyond the last page; in every state
    the table reaches both give a page from 1 on, and from a page within
    the pages both stay within them. Previous has no upper bound of its
    own: from a page within or next to the pages it gives a page within
    them, from a page further beyond the last one a page that is still
    beyond it. *)
Theorem pagination_spec (sorted : list Process) :
  let L := Z.of_nat (length sorted) in
  let T := totalPages sorted in
  (10 * (T - 1) < L ≤ 10 * T ∧ T = (L + 9) `div` 10) ∧
  (∀ p, 1 ≤ paginationPrevious p ∧ paginationNext T p ≤ T ∧
        (1 ≤ T → p ≤ T + 1 → paginationPrevious p ≤ T) ∧
        (T + 1 < p → T < paginationPrevious p) ∧
        (1 ≤ T → 0 ≤ p → 1 ≤ paginationNext T p)) ∧
  (∀ processes v,
     reachable (processes, v) → paginationShown (sortedOf processes v) = true →
     1 ≤ paginationPrevious (currentPage v) ∧
     1 ≤ paginationNext (totalPages (sortedOf processes v)) (currentPage v)
       ≤ totalPages (sortedOf processes v)) ∧
  (∀ p, 1 ≤ p ≤ T →
     (∀ i : nat, paginatedProcesses sorted p !! i =
        if decide (i < 10)%nat then sorted !! (Z.to_nat (10 * (p - 1)) + i)%nat else None) ∧
     (p < T → Z.of_nat (length (paginatedProcesses sorted p)) = 10) ∧
     (p = T → Z.of_nat (length (paginatedProcesses sorted p)) =
              if decide (L `mod` 10 = 0) then 10 else L `mod` 10) ∧
     1 ≤ paginationPrevious p ≤ T ∧
     1 ≤ paginationNext T p ≤ T).
Proof.
  intros L T. pose proof (totalPages_bounds sorted) as HT.
  pose proof (totalPages_div sorted) as Hdiv. fold L T in HT, Hdiv.
  split; [done|]. split.
  { intros p. unfold paginationPrevious, paginationNext, Math_max, Math_min. lia. }
  split.
  { intros processes v Hreach Hshown.
    apply reachable_page_positive in Hreach. apply paginationShown_pages in Hshown.
    simpl in Hreach.
    unfold paginationPrevious, paginationNext, Math_max, Math_min. lia. }
  intros p Hp. split; [intros i; apply paginatedProcesses_lookup; lia|].
  rewrite paginatedProcesses_length by lia. fold L.
  unfold paginationPrevious, paginationNext, Math_max, Math_min.
  repeat split; try lia.
  intros ->. case_decide; Z.div_mod_to_equations; lia.
Qed.

Lemma pagination_spec_witness :
  1 ≤ 3 ≤ totalPages twentyFiveProcesses ∧
  Z.of_nat (length (paginatedProcesses twentyFiveProcesses 3)) = 5 ∧
  1 ≤ paginationNext (totalPages twentyFiveProcesses) 3 ≤ 3.
Proof.
  assert (1 ≤ 3 ≤ totalPages twentyFiveProcesses) as H.
  { split; vm_compute; discriminate. }
  split; [exact H|].
  pose proof (proj2 (proj2 (proj2 (pagination_spec twentyFiveProcesses))) 3 H)
    as (_ & _ & Hlast & _ & Hnext).
  split; [exact (Hlast eq_refl)|exact Hnext].
Defined.

Lemma pageFourSearching_reachable : reachable (fortyProcesses, pageFourSearching).
Proof.
  pose (page p := (fortyProcesses, setCurrentPage p initialView)).
  assert (∀ p, paginationShown (sortedOf fortyProcesses (setCurrentPage p initialView))
               = true) as Hshown by (intros p; by vm_compute).
  assert (∀ p q, reachable (page p) →
                 paginationNext
                   (totalPages (sortedOf fortyProcesses (setCurrentPage p initialView)))
                   p = q →
                 reachable (page q)) as Hnext.
  { intros p q Hp <-. apply (reachable_step (page p)); [done|].
    apply (step_next fortyProcesses (setCurrentPage p initialView)), Hshown. }
  assert (reachable (page 1)) as H1.
  { apply (reachable_step ([], initialView)); constructor. }
  assert (reachable (page 4)) as H4.
  { apply (Hnext 3); [|by vm_compute].
    apply (Hnext 2); [|by vm_compute].
    apply (Hnext 1); [done|by vm_compute]. }
  apply (reachable_step (page 4)); [done|].
  apply (step_search "zsh" fortyProcesses (setCurrentPage 4 initialView)).
Qed.

(** Previous can leave the pages: after three clicks on Next through forty
    processes and the search [zsh], which keeps fifteen of them, the bar
    is shown with two pages and the current page is 4; Previous is
    enabled and leads to page 3, beyond the last page, where the table
    reports no match. *)
Lemma previous_beyond_last_counterexample :
  let v := pageFourSearching in
  let T := totalPages (sortedOf fortyProcesses v) in
  let v' := setCurrentPage (paginationPrevious (currentPage v)) v in
  reachable (fortyProcesses, v) ∧
  paginationShown (sortedOf fortyProcesses v) = true ∧
  step (fortyProcesses, v) (fortyProcesses, v') ∧
  reachable (fortyProcesses, v') ∧
  T = 2 ∧
  currentPage v' = 3 ∧
  ¬ (currentPage v' ≤ T) ∧
  tableBody false fortyProcesses v' = Message "No matching processes found".
Proof.
  cbv zeta.
  assert (paginationShown (sortedOf fortyProcesses pageFourSearching) = true) as Hshown
    by (by vm_compute).
  pose proof (step_previous fortyProcesses pageFourSearching Hshown) as Hstep.
  split; [apply pageFourSearching_reachable|].
  split; [exact Hshown|]. split; [exact Hstep|].
  split; [eapply reachable_step; [apply pageFourSearching_reachable|exact Hstep]|].
  split; [by vm_compute|]. split; [done|].
  split; [by vm_compute|by vm_compute].
Qed.

End NavigationFacts.

Module ViewFacts.
Import JS Provider Table Spec Sample.

Lemma pageTwoSearching_reachable : reachable (elevenProcesses, pageTwoSearching).
Proof.
  apply (reachable_step (elevenProcesses, setCurrentPage 2 initialView)).
  - apply (reachable_step (elevenProcesses, initialView)).
    + apply (reachable_step ([], initialView)); constructor.
    + assert (paginationNext (totalPages (sortedOf elevenProcesses initialView))
                (currentPage initialView) = 2) as <- by (by vm_compute).
      apply step_next. by vm_compute.
  - apply (step_search "zsh").
Qed.

(** C10. A change of the search term leaves the current page as it is; so
    a state is reachable, on page 2 with a search that keeps a single
    record, where the page shown is empty and the table reports no match
    although the filtered list is not empty and page 1 would show it. *)
Theorem search_keeps_page :
  (∀ term v, currentPage (setSearchTerm term v) = currentPage v) ∧
  (∃ processes v,
     reachable (processes, v) ∧
     currentPage v = 2 ∧
     filteredOf processes v ≠ [] ∧
     (length (filteredOf processes v) ≤ 10)%nat ∧
     paginatedOf processes v = [] ∧
     tableBody false processes v = Message "No matching processes found" ∧
     paginatedProcesses (sortedOf processes v) 1 = filteredOf processes v).
Proof.
  split; [done|].
  exists elevenProcesses, pageTwoSearching.
  split; [apply pageTwoSearching_reachable|].
  assert (filteredOf elevenProcesses pageTwoSearching = [sampleProcess 10 "zsh"]) as Hf
    by (by vm_compute).
  unfold tableBody, paginatedOf, sortedOf. rewrite Hf.
  repeat split; try done. simpl. lia.
Qed.

End ViewFacts.

Module ProviderFacts.
Import JS Provider Spec Sample SortFacts PageFacts.

(** A draw in [0, 1) scaled by the length of a catalogue and floored is an
    index of the catalogue: the generators never read past its end. *)
Lemma Math_floor_scaled (r : number) (n : Z) :
  (0 ≤ r)%Qc → (r < 1)%Qc → 0 < n →
  0 ≤ Math_floor (r * Qc_of_Z n)%Qc < n.
Proof.
  intros H0 H1 Hn. unfold Math_floor.
  assert (0 ≤ r * Qc_of_Z n)%Qc as Hlo.
  { apply Qcmult_nonneg_nonneg; [done|].
    rewrite <-Z2Qc_inj_0. apply (proj1 (Z2Qc_inj_le 0 n)). lia. }
  assert (r * Qc_of_Z n < Qc_of_Z n)%Qc as Hhi.
  { rewrite <-(Qcmult_1_l (Qc_of_Z n)) at 2.
    apply Qcmult_lt_compat_r; [|done]. rewrite <-Z2Qc_inj_0.
    by apply (proj1 (Z2Qc_inj_lt 0 n)). }
  split.
  - change 0 with (Qfloor 0). by apply Qfloor_resp_le.
  - rewrite Zlt_Qlt. eapply Qle_lt_trans; [apply Qfloor_le|]. exact Hhi.
Qed.

Lemma index_member {A} (d : A) (a : list A) (r : number) :
  (0 ≤ r)%Qc → (r < 1)%Qc → a ≠ [] →
  index d a (Math_floor (r * Qc_of_Z (Z.of_nat (length a)))%Qc) ∈ a.
Proof.
  intros H0 H1 Ha.
  pose proof (Math_floor_scaled r (Z.of_nat (length a)) H0 H1) as Hk.
  destruct Hk as [Hk0 Hk1]; [destruct a; simpl; [done|lia]|].
  unfold index. rewrite decide_True by done.
  apply list_elem_of_In, nth_In. lia.
Qed.

(** Runs the binds of a generator on a world. *)
Ltac run_gen := unfold mbind, Gen_bind, bind.

Section Generators.
Variable Math_random : nat → number.
Variable Date_now : nat → Z.
Variable toISOString : Z → string.

Lemma mapM_length {A B} (f : A → Gen B) (l : list A) (w : World) :
  length (mapM f l w).1 = length l.
Proof.
  revert w. induction l as [|a l IH]; intros w; [done|].
  simpl. run_gen. destruct (f a w) as [b w1].
  specialize (IH w1). destruct (mapM f l w1) as [bs w2]. simpl in *. by rewrite IH.
Qed.

Lemma memory_comparator_keeps (a b : Process) :
  keeps (λ a b, memoryKb b - memoryKb a)%Qc a b ↔ (memoryKb b ≤ memoryKb a)%Qc.
Proof.
  unfold keeps, Qcminus. by rewrite <-Qclt_minus_iff, <-Qcle_ngt.
Qed.

Lemma generateMockProcesses_length (w : World) :
  length (generateMockProcesses Math_random Date_now toISOString w).1 = 100%nat.
Proof.
  unfold generateMockProcesses. run_gen.
  pose proof (mapM_length (mockProcess Math_random Date_now toISOString) (seqZ 0 100) w) as H.
  destruct (mapM _ _ w) as [generated w1]. cbn [fst ret] in *.
  by rewrite sort_length, H, length_seqZ.
Qed.

Lemma generateMockProcesses_sorted (w : World) :
  descending_memory (generateMockProcesses Math_random Date_now toISOString w).1.
Proof.
  unfold generateMockProcesses. run_gen.
  destruct (mapM _ _ w) as [generated w1]. simpl.
  eapply TableSortFacts.StronglySorted_weaken; [|apply sort_sorted].
  - intros x y. apply memory_comparator_keeps.
  - intros a b c. rewrite !memory_comparator_keeps. intros H1 H2. by eapply Qcle_trans.
  - intros a b Hgt. apply memory_comparator_keeps.
    apply Qclt_le_weak. unfold Qcminus in Hgt. by apply Qclt_minus_iff.
Qed.

Lemma generateMockSystemResources_capacity (w : World) :
  totalMemory (generateMockSystemResources Math_random w).1 = Qc_of_Z 32000 ∧
  totalDisk (generateMockSystemResources Math_random w).1 = Qc_of_Z 1000000.
Proof. done. Qed.

Lemma fetchProcesses_failed (response : FetchResult (list Process)) :
  failed response →
  fetchProcesses Math_random Date_now toISOString response
  = generateMockProcesses Math_random Date_now toISOString.
Proof. by destruct response as [|[] ? ? []]. Qed.

Lemma fetchSystemResources_failed (response : FetchResult SystemResources) :
  failed response →
  fetchSystemResources Math_random response = generateMockSystemResources Math_random.
Proof. by destruct response as [|[] ? ? []]. Qed.

(** C4. When the fetch fails, the data source yields 100 synthetic records
    in descending order of memory usage, and a synthetic resource summary
    whose total memory and total disk are 32000 and 1000000 whatever the
    random draws, the clock and the number of earlier invocations. *)
Theorem synthetic_fallback_spec
    (processResponse : FetchResult (list Process))
    (resourceResponse : FetchResult SystemResources) (w w' : World) :
  failed processResponse → failed resourceResponse →
  let processData := (fetchProcesses Math_random Date_now toISOString processResponse w).1 in
  let resourceData := (fetchSystemResources Math_random resourceResponse w').1 in
  length processData = 100%nat ∧
  descending_memory processData ∧
  totalMemory resourceData = Qc_of_Z 32000 ∧
  totalDisk resourceData = Qc_of_Z 1000000.
Proof.
  intros Hp Hr. simpl.
  rewrite fetchProcesses_failed, fetchSystemResources_failed by done.
  split; [apply generateMockProcesses_length|].
  split; [apply generateMockProcesses_sorted|].
  apply generateMockSystemResources_capacity.
Qed.

Variable JSON_stringify : list Process → string.
Hypothesis JSON_stringify_inj : ∀ a b, JSON_stringify a = JSON_stringify b → a = b.

Lemma updateProcesses_spec (processData prev : list Process) :
  updateProcesses JSON_stringify processData prev =
  if decide (prev ≠ [] ∧ take 5 processData = take 5 prev) then prev else processData.
Proof.
  unfold updateProcesses. rewrite !slice_nonneg by lia.
  change (Z.to_nat (5 - 0)) with 5%nat. change (Z.to_nat 0) with 0%nat.
  rewrite !drop_0.
  destruct (decide (prev ≠ [] ∧ take 5 processData = take 5 prev)) as [[Hne Heq]|Hn].
  - rewrite bool_decide_eq_true_2 by (destruct prev; simpl; [done|lia]).
    rewrite Heq, String.eqb_refl. done.
  - destruct prev as [|p prev]; [done|].
    rewrite bool_decide_eq_true_2 by (simpl; lia).
    destruct (String.eqb_spec (JSON_stringify (take 5 processData))
                (JSON_stringify (take 5 (p :: prev)))) as [Heq|Hne]; [|done].
    destruct Hn. split; [done|]. by apply JSON_stringify_inj.
Qed.

(** C5. A refresh keeps the held process list as it is when that list is
    not empty and its first five entries equal the first five fetched
    ones, and replaces it by the fetched list otherwise. *)
Theorem refresh_keeps_or_replaces
    (processResponse : FetchResult (list Process))
    (resourceResponse : FetchResult SystemResources) (st : State) (w : World) :
  let processData := (fetchProcesses Math_random Date_now toISOString processResponse w).1 in
  let st' := (refreshProcesses Math_random Date_now toISOString JSON_stringify
                processResponse resourceResponse st w).1 in
  (processes st ≠ [] ∧ take 5 processData = take 5 (processes st) →
   processes st' = processes st) ∧
  (¬ (processes st ≠ [] ∧ take 5 processData = take 5 (processes st)) →
   processes st' = processData).
Proof.
  unfold refreshProcesses. run_gen.
  destruct (fetchProcesses _ _ _ _ w) as [processData w1].
  destruct (fetchSystemResources _ _ w1) as [resourceData w2]. simpl.
  rewrite updateProcesses_spec. split; intros H; by case_decide.
Qed.

End Generators.
Lemma indexStringify_inj (a b : list Process) :
  indexStringify a = indexStringify b → a = b.
Proof.
  unfold indexStringify. intros H.
  apply (inj pretty) in H. by apply (inj encode) in H.
Qed.

Lemma synthetic_fallback_spec_witness :
  failed (Rejected "Failed to fetch" : FetchResult (list Process)) ∧
  failed (Responded false 503 "Service Unavailable" None : FetchResult SystemResources) ∧
  length (fetchProcesses halfRandom epochClock epochISO
            (Rejected "Failed to fetch") (mkWorld 0 0)).1 = 100%nat ∧
  totalMemory (fetchSystemResources halfRandom
                 (Responded false 503 "Service Unavailable" None) (mkWorld 800 100)).1
  = Qc_of_Z 32000.
Proof.
  split; [exact I|]. split; [exact I|].
  pose proof (synthetic_fallback_spec halfRandom epochClock epochISO
    (Rejected "Failed to fetch") (Responded false 503 "Service Unavailable" None)
    (mkWorld 0 0) (mkWorld 800 100) I I) as (Hlen & _ & Hmem & _).
  split; [exact Hlen|exact Hmem].
Defined.

Lemma refresh_keeps_or_replaces_witness :
  (∀ a b, indexStringify a = indexStringify b → a = b) ∧
  processes (refreshProcesses halfRandom epochClock epochISO indexStringify
               (Responded true 200 "" (Some (processes heldState)))
               (Rejected "Failed to fetch") heldState (mkWorld 0 0)).1
  = processes heldState ∧
  processes (refreshProcesses halfRandom epochClock epochISO indexStringify
               (Responded true 200 "" (Some [nodeProcess]))
               (Rejected "Failed to fetch") heldState (mkWorld 0 0)).1
  = [nodeProcess].
Proof.
  split; [exact indexStringify_inj|]. split.
  - refine (proj1 (refresh_keeps_or_replaces halfRandom epochClock epochISO
             indexStringify indexStringify_inj
             (Responded true 200 "" (Some (processes heldState)))
             (Rejected "Failed to fetch") heldState (mkWorld 0 0)) _).
    split; [discriminate|reflexivity].
  - refine (proj2 (refresh_keeps_or_replaces halfRandom epochClock epochISO
             indexStringify indexStringify_inj
             (Responded true 200 "" (Some [nodeProcess]))
             (Rejected "Failed to fetch") heldState (mkWorld 0 0)) _).
    intros [_ H]. discriminate H.
Defined.

(** The first synthetic record of the sample runtime: the draws of 1/2
    pick the middle of each catalogue. *)
Example mockProcess_sample :
  let p := (mockProcess halfRandom epochClock epochISO 7 (mkWorld 0 0)).1 in
  pid p = 1007 ∧ name p = "signal" ∧ user p = "guest" ∧ status p = "zombie" ∧
  priority p = 5 ∧ threads p = 11 ∧ startTime p = "1970-01-01 00:00:00" ∧
  memoryKb p = Qc_of_Z 500 ∧
  (mockProcess halfRandom epochClock epochISO 7 (mkWorld 0 0)).2 = mkWorld 8 1.
Proof. repeat split; try reflexivity. by apply Qc_is_canon. Qed.

End ProviderFacts.

Module QueryFacts.
Import JS Provider Query Spec Sample StringFacts.

Lemma trimStart_blank (s : string) : blank s → trimStart s = "".
Proof.
  unfold blank. induction s as [|c s IH]; [done|]. simpl.
  intros [Hc Hs]%andb_true_iff. rewrite Hc. auto.
Qed.

Lemma trimStart_not_blank (s : string) : ¬ blank s → ¬ blank (trimStart s).
Proof.
  unfold blank. induction s as [|c s IH]; [done|]. simpl.
  destruct (isWhiteSpace c) eqn:Hc; simpl; [auto|]. by rewrite Hc.
Qed.

Lemma trimEnd_empty (s : string) : trimEnd s = "" ↔ blank s.
Proof.
  unfold blank. induction s as [|c s IH]; [done|]. simpl.
  destruct (trimEnd s) eqn:Ht.
  - destruct (isWhiteSpace c); simpl; [|done].
    split; [intros _; by apply IH | done].
  - split; [done|]. intros [_ Hs]%andb_true_iff. by apply IH in Hs.
Qed.

Lemma trim_empty (s : string) : truthy (trim s) = false ↔ blank s.
Proof.
  unfold trim. transitivity (trimEnd (trimStart s) = "").
  { by destruct (trimEnd (trimStart s)). }
  rewrite trimEnd_empty. split.
  - intros H. destruct (decide (blank s)) as [|Hn]; [done|].
    by destruct (trimStart_not_blank s Hn).
  - intros H. by rewrite trimStart_blank.
Qed.

Section Submission.
Variable Number_toString : number → string.
Variable fetch : string → Payload → FetchResult Reply.

Lemma queryOllama_spec (shared : Provider.State) (st : State) :
  queryOllama fetch (query st) (buildContext Number_toString (processes shared)) =
  let request := requestOf Number_toString shared st in
  match fetch generateUrl request with
  | Responded true _ _ (Some data) =>
      (inl (replyText data), [Post generateUrl request])
  | Responded true _ text None =>
      (inr (BodyError text),
       [Post generateUrl request; ConsoleError "Ollama API error:" (BodyError text)])
  | Responded false status text _ =>
      let error := StatusError ("Error " +:+ Z_toString status +:+ ": " +:+ text) in
      (inr error, [Post generateUrl request; ConsoleError "Ollama API error:" error])
  | Rejected reason =>
      (inr (FetchError reason),
       [Post generateUrl request; ConsoleError "Ollama API error:" (FetchError reason)])
  end.
Proof.
  unfold queryOllama, buildContext, requestOf. rewrite append_assoc.
  change ("http://localhost:" +:+ OLLAMA_PORT +:+ "/api/generate") with generateUrl.
  reflexivity.
Qed.

Lemma queryOllama_effects (shared : Provider.State) (st : State) :
  posts (queryOllama fetch (query st) (buildContext Number_toString (processes shared))).2
  = [Post generateUrl (requestOf Number_toString shared st)] ∧
  toasts (queryOllama fetch (query st) (buildContext Number_toString (processes shared))).2
  = [].
Proof.
  rewrite queryOllama_spec. cbv zeta.
  by destruct (fetch _ _) as [|[] ? ? []].
Qed.

Lemma posts_app (a b : list Effect) : posts (a ++ b) = posts a ++ posts b.
Proof. apply List.filter_app. Qed.

Lemma toasts_app (a b : list Effect) : toasts (a ++ b) = toasts a ++ toasts b.
Proof. apply List.filter_app. Qed.

Lemma handleSubmit_sent (shared : Provider.State) (st : State) :
  ¬ blank (query st) →
  handleSubmit Number_toString fetch shared st =
  match queryOllama fetch (query st) (buildContext Number_toString (processes shared)) with
  | (inl response, effects) =>
      (addToChatHistory response shared,
       setIsLoading false (setQuery "" (setIsLoading true st)),
       PreventDefault :: effects ++ [ScrollLater 100])
  | (inr error, effects) =>
      (shared,
       setIsLoading false (setIsLoading true st),
       PreventDefault :: effects ++
         [ConsoleError "Error querying AI:" error;
          ToastError "Failed to get a response"])
  end.
Proof.
  intros Hblank. unfold handleSubmit.
  destruct (truthy (trim (query st))) eqn:Htrim; [done|].
  by apply trim_empty in Htrim.
Qed.

(** C7. A blank query is rejected: no request is sent, nothing is added
    to the chat history, one warning is shown, and the state is as it was. *)
Theorem blank_query_rejected (shared : Provider.State) (st : State) :
  blank (query st) →
  let '(shared', st', effects) := handleSubmit Number_toString fetch shared st in
  posts effects = [] ∧
  chatHistory shared' = chatHistory shared ∧
  toasts effects = [ToastError "Please enter a query"] ∧
  shared' = shared ∧ st' = st.
Proof.
  intros Hblank. unfold handleSubmit.
  by rewrite (proj2 (trim_empty _) Hblank).
Qed.

(** C8. Whatever the query, a submission whose inference call succeeds
    appends the reply of the call at the end of the chat history, once,
    and clears the input; one whose call fails (transport error,
    non-success status, or a body that does not parse) leaves the chat
    history as it was, shows an error notification and keeps the query in
    the input. A submission makes no call only for a blank query. *)
Theorem submission_outcome (shared : Provider.State) (st : State) :
  let '(shared', st', effects) := handleSubmit Number_toString fetch shared st in
  match inference fetch effects with
  | Some (Responded true _ _ (Some data)) =>
      chatHistory shared' = chatHistory shared ++ [replyText data] ∧
      query st' = "" ∧
      toasts effects = []
  | Some _ =>
      chatHistory shared' = chatHistory shared ∧
      query st' = query st ∧
      toasts effects = [ToastError "Failed to get a response"]
  | None => blank (query st) ∧ chatHistory shared' = chatHistory shared
  end.
Proof.
  destruct (decide (blank (query st))) as [Hblank|Hblank].
  { unfold handleSubmit. by rewrite (proj2 (trim_empty _) Hblank). }
  rewrite handleSubmit_sent, queryOllama_spec by done.
  unfold inference.
  destruct (fetch generateUrl (requestOf Number_toString shared st))
    as [reason|[] status text [data|]] eqn:Hfetch; simpl; by rewrite Hfetch.
Qed.

(** C6, as amended. The prompt of the request a non-blank query sends is
    the text [System processes: ] followed by one entry per process (its
    pid, name, status, cpu and memory), the entries separated by a comma
    and a space on one line, then a line feed, then the query; and that
    request is the only one. *)
Theorem prompt_spec (shared : Provider.State) (st : State) :
  ¬ blank (query st) →
  let '(_, _, effects) := handleSubmit Number_toString fetch shared st in
  ∃ body,
    posts effects = [Post generateUrl body] ∧
    prompt body =
      "System processes: " +:+
      join ", " (processLine Number_toString <$> processes shared) +:+
      String "010" "" +:+ query st ∧
    ∀ proc, processLine Number_toString proc =
      "PID: " +:+ Z_toString (pid proc) +:+ ", Name: " +:+ name proc +:+
      ", Status: " +:+ status proc +:+ ", CPU KB: " +:+ Number_toString (cpuKb proc) +:+
      ", Memory KB: " +:+ Number_toString (memoryKb proc).
Proof.
  intros Hblank. rewrite handleSubmit_sent by done.
  pose proof (queryOllama_effects shared st) as [Hposts _].
  destruct (queryOllama _ _ _) as [[reply|e] effects]; simpl in *;
    exists (requestOf Number_toString shared st);
    (split; [|done]);
    change (posts (PreventDefault :: ?l)) with (posts l);
    rewrite posts_app, Hposts; by rewrite app_nil_r.
Qed.

End Submission.

Lemma blank_query_rejected_witness :
  blank (query (typed "  ")) ∧
  handleSubmit decimal_toString (answering "fine") heldState (typed "  ")
  = (heldState, typed "  ", [PreventDefault; ToastError "Please enter a query"]).
Proof.
  assert (blank (query (typed "  "))) as H by reflexivity.
  split; [exact H|].
  pose proof (blank_query_rejected decimal_toString (answering "fine")
    heldState (typed "  ") H) as Hspec.
  destruct (handleSubmit decimal_toString (answering "fine") heldState (typed "  "))
    as [[shared' st'] effects] eqn:E.
  destruct Hspec as (_ & _ & _ & -> & ->).
  injection E as <-. reflexivity.
Defined.

(** A submission answered with [chrome], the same with the endpoint down,
    and one whose answer has an empty [response] field. *)
Example handleSubmit_sample :
  let sent := handleSubmit decimal_toString (answering "chrome") heldState (typed "top?") in
  let lost := handleSubmit decimal_toString unreachable heldState (typed "top?") in
  let mute := handleSubmit decimal_toString (answering "") heldState (typed "top?") in
  chatHistory sent.1.1 = ["earlier reply"; "chrome"] ∧
  sent.1.2 = typed "" ∧
  toasts sent.2 = [] ∧
  lost.1 = (heldState, typed "top?") ∧
  toasts lost.2 = [ToastError "Failed to get a response"] ∧
  length (posts lost.2) = 1%nat ∧
  chatHistory mute.1.1 = ["earlier reply"; "No response from Ollama."].
Proof. repeat split. Qed.

Lemma prompt_spec_witness :
  ¬ blank (query (typed "top?")) ∧
  posts (handleSubmit decimal_toString (answering "chrome") heldState (typed "top?")).2
  = [Post generateUrl (requestOf decimal_toString heldState (typed "top?"))].
Proof.
  assert (¬ blank (query (typed "top?"))) as H by (intros H; discriminate H).
  split; [exact H|].
  pose proof (prompt_spec decimal_toString (answering "chrome")
    heldState (typed "top?") H) as Hspec.
  destruct (handleSubmit decimal_toString (answering "chrome") heldState (typed "top?"))
    as [[shared' st'] effects] eqn:E.
  destruct Hspec as (body & Hposts & Hprompt & _).
  injection E as _ _ <-. reflexivity.
Defined.

(** The context does not have one line per process: that of two processes
    is one line, and the prompt has two lines, the context and the query. *)
Lemma prompt_lines_counterexample :
  ∃ body,
    posts (handleSubmit decimal_toString (answering "chrome") heldState (typed "top?")).2
    = [Post generateUrl body] ∧
    lines (prompt body) =
      [ "System processes: PID: 1042, Name: node, Status: running, CPU KB: 12.5, Memory KB: 300, PID: 2001, Name: notepad++, Status: sleeping, CPU KB: 1, Memory KB: 200";
        "top?" ] ∧
    length (processes heldState) = 2%nat ∧
    length (lines (buildContext decimal_toString (processes heldState))) ≠ 2%nat.
Proof.
  eexists. split; [reflexivity|]. split; [reflexivity|]. split; [reflexivity|].
  vm_compute. discriminate.
Qed.

End QueryFacts.

(** * Further properties of the code *)

Module SearchExtra.
Import JS Provider Table Spec Sample StringFacts FilterFacts.







Lemma toLowerCase_idemp (s : string) : toLowerCase (toLowerCase s) = toLowerCase s.
Proof.
  unfold toLowerCase. induction s as [|c s IH]; [done|]. simpl. rewrite IH.
  f_equal. by destruct c as [[] [] [] [] [] [] [] []].
Qed.

Lemma contains_ci_case (field term term' : string) :
  toLowerCase term = toLowerCase term' →
  contains_ci field term ↔ contains_ci field term'.
Proof. intros H. unfold contains_ci. by rewrite H. Qed.

(** X2. The case of the search term does not matter: two terms that are
    equal up to the case of their letters select the same rows, also
    through the pid, which the code compares with the term as typed. *)
Theorem search_ignores_case (processes : list Process) (term term' : string) :
  toLowerCase term = toLowerCase term' →
  filteredProcesses processes term = filteredProcesses processes term'.
Proof.
  intros H. unfold filteredProcesses. apply filter_ext. intros p.
  apply eq_true_iff_eq. rewrite !matchesSearch_spec. unfold matchesSpec.
  by rewrite !(contains_ci_case _ term term' H).
Qed.

Lemma search_ignores_case_witness :
  toLowerCase "NoDe" = toLowerCase "node" ∧
  filteredProcesses [nodeProcess; notepadProcess] "NoDe"
  = filteredProcesses [nodeProcess; notepadProcess] "node".
Proof.
  assert (toLowerCase "NoDe" = toLowerCase "node") as H by reflexivity.
  split; [exact H|].
  exact (search_ignores_case [nodeProcess; notepadProcess] "NoDe" "node" H).
Defined.

End SearchExtra.

Module SortExtra.
Import JS Provider Table Spec Sample SortFacts OrderFacts TableSortFacts PageFacts.

Section Sorted.
Context {A : Type} (comparefn : A → A → number).

Local Abbreviation keeps := (keeps comparefn).

(** The insertion sort leaves a sorted list as it is. *)
Lemma sort_sorted_id (l : list A) : StronglySorted keeps l → sort comparefn l = l.
Proof.
  induction 1 as [|x l Hl IH Hx]; [done|]. simpl. rewrite IH.
  destruct Hx as [|y l Hxy _]; [done|]. simpl. by rewrite decide_False.
Qed.

Hypothesis keeps_trans : ∀ a b c, keeps a b → keeps b c → keeps a c.

(** Inserting into a sorted list and keeping the elements a test accepts
    is keeping them first and inserting then. *)
Lemma sort_insert_List_filter (f : A → bool) (x : A) (l : list A) :
  StronglySorted keeps l →
  List.filter f (sort_insert comparefn x l) =
  if f x then sort_insert comparefn x (List.filter f l) else List.filter f l.
Proof.
  induction 1 as [|y l Hl IH Hy]; simpl.
  - by destruct (f x).
  - case_decide as Hgt; simpl.
    + rewrite IH. destruct (f y), (f x); simpl; try done.
      by rewrite decide_True.
    + destruct (f x) eqn:Hfx; [|done]. destruct (f y) eqn:Hfy; simpl.
      * by rewrite decide_False.
      * assert (Forall (keeps x) (List.filter f l)) as Hall.
        { apply Forall_forall. intros z Hz.
          apply list_elem_of_In, List.filter_In in Hz as [Hz _].
          apply list_elem_of_In in Hz.
          eapply keeps_trans; [exact Hgt|].
          by eapply (proj1 (Forall_forall _ _) Hy). }
        destruct Hall as [|z l' Hz _]; [done|]. simpl. by rewrite decide_False.
Qed.

Hypothesis swap_keeps : ∀ a b, (0 < comparefn a b)%Qc → keeps b a.

Lemma sort_List_filter (f : A → bool) (l : list A) :
  sort comparefn (List.filter f l) = List.filter f (sort comparefn l).
Proof.
  induction l as [|x l IH]; [done|]. simpl.
  rewrite sort_insert_List_filter by (by apply sort_sorted).
  destruct (f x); simpl; by rewrite IH.
Qed.

End Sorted.

(** X3. Sorting loses and invents no row and is settled: the sorted list
    is a permutation of the filtered one, sorting it again changes
    nothing, and the number of pages is the same for every sort
    configuration. *)
Theorem sortedProcesses_permutation (filtered : list Process) (cfg cfg' : SortConfig) :
  sortedProcesses filtered cfg ≡ₚ filtered ∧
  sortedProcesses (sortedProcesses filtered cfg) cfg = sortedProcesses filtered cfg ∧
  totalPages (sortedProcesses filtered cfg) = totalPages (sortedProcesses filtered cfg').
Proof.
  unfold sortedProcesses. split; [apply sort_perm|]. split.
  - apply sort_sorted_id, sort_sorted.
    + apply compareProcesses_keeps_trans.
    + apply compareProcesses_swap_keeps.
  - by rewrite !totalPages_div, !sort_length.
Qed.

(** X4. Searching and sorting commute: sorting the search result, as the
    view does, gives the rows that searching the sorted list would give,
    in the same order. *)
Theorem search_sort_commute (processes : list Process) (term : string) (cfg : SortConfig) :
  sortedProcesses (filteredProcesses processes term) cfg
  = filteredProcesses (sortedProcesses processes cfg) term.
Proof.
  unfold sortedProcesses, filteredProcesses. apply sort_List_filter.
  - apply compareProcesses_keeps_trans.
  - apply compareProcesses_swap_keeps.
Qed.

(** X5. A click on a header always makes its column the sort key; a
    click on another column than the active one sorts ascending; and
    every further click on the same header flips the direction, so three
    clicks are one. *)
Theorem handleSort_flips (k : ProcessKey) (cfg : SortConfig) :
  key (handleSort k cfg) = k ∧
  (key cfg ≠ k → direction (handleSort k cfg) = ascending) ∧
  direction (handleSort k (handleSort k cfg)) ≠ direction (handleSort k cfg) ∧
  handleSort k (handleSort k (handleSort k cfg)) = handleSort k cfg.
Proof.
  unfold handleSort. simpl.
  destruct (decide (key cfg = k)) as [Hk|Hk].
  - rewrite !(bool_decide_eq_true_2 _ Hk), !(bool_decide_eq_true_2 (k = k) eq_refl).
    by destruct (direction cfg).
  - rewrite !(bool_decide_eq_false_2 _ Hk), !(bool_decide_eq_true_2 (k = k) eq_refl).
    done.
Qed.

(** X6. The arrow tells the truth: exactly the header of the sort key
    carries a mark, and the rows are in ascending order of a column marked
    with the up arrow, in descending order of one marked with the down
    arrow. *)
Theorem getSortIndicator_truthful (filtered : list Process) (cfg : SortConfig) (k : ProcessKey) :
  (getSortIndicator k cfg ≠ None ↔ k = key cfg) ∧
  (getSortIndicator k cfg = Some ArrowUp → ascending_by k (sortedProcesses filtered cfg)) ∧
  (getSortIndicator k cfg = Some ArrowDown → descending_by k (sortedProcesses filtered cfg)).
Proof.
  pose proof (sortedProcesses_ordered filtered cfg) as Hord.
  unfold getSortIndicator.
  destruct (decide (key cfg = k)) as [<-|Hk].
  - rewrite bool_decide_eq_false_2 by (intros H; by apply H).
    destruct (direction cfg); repeat split; done.
  - rewrite bool_decide_eq_true_2 by done. repeat split; done.
Qed.

Lemma compareProcesses_tie (cfg : SortConfig) (a b : Process) :
  tie (compareProcesses cfg) a b ↔ field (key cfg) a = field (key cfg) b.
Proof.
  unfold tie. rewrite !compareProcesses_keeps. split.
  - destruct (direction cfg); intros [H1 H2];
      [by apply field_le_antisym|symmetry; by apply field_le_antisym].
  - intros Heq. rewrite Heq. destruct (direction cfg); split; apply field_le_refl.
Qed.

Lemma filter_key_short {A B} `{EqDecision B} (f : A → B) (v : B) (l : list A) :
  NoDup (f <$> l) → (length (filter (λ y, f y = v) l) ≤ 1)%nat.
Proof.
  induction l as [|x l IH]; [simpl; lia|].
  rewrite fmap_cons, NoDup_cons. intros [Hx Hl]. specialize (IH Hl).
  rewrite filter_cons. case_decide as Hv; [|done].
  assert (filter (λ y, f y = v) l = []) as ->; [|simpl; lia].
  destruct (filter (λ y, f y = v) l) as [|y m] eqn:E; [done|].
  assert (y ∈ filter (λ y, f y = v) l) as Hy by (rewrite E; by left).
  apply list_elem_of_filter in Hy as [Hfy Hy].
  destruct Hx. rewrite Hv, <-Hfy. by apply list_elem_of_fmap_2.
Qed.

Lemma StronglySorted_reverse {A} (R : A → A → Prop) (l : list A) :
  StronglySorted R l → StronglySorted (flip R) (reverse l).
Proof.
  induction 1 as [|x l Hl IH Hx]; [apply SSorted_nil|].
  rewrite reverse_cons. apply StronglySorted_app_2; [|done|by repeat constructor].
  intros y z Hy ->%list_elem_of_singleton.
  pose proof (proj1 (elem_of_reverse y l) Hy) as Hin.
  unfold flip. by apply (proj1 (Forall_forall _ _) Hx).
Qed.

(** X7. With no two rows equal in the sort key, as for the pid, the
    descending order is the ascending order read backwards. (With equal
    keys it is not: tied rows keep their original order both ways.) *)
Theorem descending_mirrors_ascending (filtered : list Process) (k : ProcessKey) :
  NoDup (field k <$> filtered) →
  sortedProcesses filtered {| key := k; direction := descending |}
  = reverse (sortedProcesses filtered {| key := k; direction := ascending |}).
Proof.
  intros Hkeys. symmetry. apply sortedProcesses_unique.
  set (up := {| key := k; direction := ascending |}).
  set (down := {| key := k; direction := descending |}).
  split; [|split].
  - rewrite reverse_Permutation. apply sort_perm.
  - pose proof (sortedProcesses_ordered filtered up) as Hup.
    apply StronglySorted_reverse in Hup.
    eapply StronglySorted_weaken; [|exact Hup].
    intros a b Hab. by apply (compareProcesses_keeps down).
  - intros x. rewrite filter_reverse.
    assert (∀ m, filter (tie (compareProcesses down) x) m = with_key k (field k x) m)
      as Hclass.
    { intros m. unfold with_key. apply list_filter_iff. intros y.
      rewrite compareProcesses_tie. simpl. naive_solver. }
    rewrite !Hclass.
    pose proof (sortedProcesses_stable filtered up (field k x)) as Hstable.
    change (key up) with k in Hstable. rewrite Hstable.
    unfold with_key.
    pose proof (filter_key_short (field k) (field k x) filtered Hkeys) as Hshort.
    destruct (filter _ filtered) as [|y [|z m]]; simpl in Hshort; [done|done|lia].
Qed.

Lemma descending_mirrors_ascending_witness :
  NoDup (field K_pid <$> elevenProcesses) ∧
  sortedProcesses elevenProcesses {| key := K_pid; direction := descending |}
  = reverse (sortedProcesses elevenProcesses {| key := K_pid; direction := ascending |}).
Proof.
  assert (NoDup (field K_pid <$> elevenProcesses)) as H.
  { apply (bool_decide_unpack (NoDup (field K_pid <$> elevenProcesses))).
    vm_compute. exact I. }
  split; [exact H|].
  exact (descending_mirrors_ascending elevenProcesses K_pid H).
Defined.

End SortExtra.

Module PageExtra.
Import JS Provider Table Spec Sample SortFacts TableSortFacts PageFacts WindowFacts
  NavigationFacts.

Lemma pages_take (sorted : list Process) (n : nat) :
  concat (paginatedProcesses sorted <$> seqZ 1 (Z.of_nat n)) = take (10 * n) sorted.
Proof.
  induction n as [|n IH]; [done|].
  rewrite seqZ_S, fmap_app, concat_app, IH. simpl. rewrite app_nil_r.
  rewrite paginatedProcesses_take_drop by lia.
  replace (Z.to_nat (10 * (1 + Z.of_nat n - 1))) with (10 * n)%nat by lia.
  rewrite take_take_drop. f_equal. lia.
Qed.

(** X8. The pages partition the sorted list: the pages 1 to the last,
    one after the other, are the sorted list, so every row is on exactly
    one page and the rows of all pages number the count in the heading. *)
Theorem pages_partition (sorted : list Process) :
  concat (paginatedProcesses sorted <$> seqZ 1 (totalPages sorted)) = sorted.
Proof.
  pose proof (totalPages_bounds sorted) as HT.
  assert (0 ≤ totalPages sorted) as H0 by lia.
  rewrite <-(Z2Nat.id (totalPages sorted)) at 1 by done.
  rewrite pages_take. apply take_ge. lia.
Qed.

Lemma filteredProcesses_length (processes : list Process) (term : string) :
  (length (filteredProcesses processes term) ≤ length processes)%nat.
Proof. apply List.filter_length_le. Qed.

Lemma sortedOf_length (processes : list Process) (v : ViewState) :
  (length (sortedOf processes v) ≤ length processes)%nat.
Proof.
  unfold sortedOf, sortedProcesses. rewrite sort_length.
  apply filteredProcesses_length.
Qed.

Lemma paginatedOf_rows (processes : list Process) (v : ViewState) (r : Process) :
  1 ≤ currentPage v →
  r ∈ paginatedOf processes v → r ∈ processes ∧ matchesSearch (searchTerm v) r = true.
Proof.
  intros Hp Hr. unfold paginatedOf in Hr.
  rewrite paginatedProcesses_take_drop in Hr by done.
  apply subseteq_take, subseteq_drop in Hr.
  unfold sortedOf, sortedProcesses in Hr. rewrite sort_perm in Hr.
  apply list_elem_of_In, List.filter_In in Hr as [Hin Hm].
  by apply list_elem_of_In in Hin.
Qed.

(** A page within the pages shows rows, whatever the loading flag. *)
Lemma page_in_range_rows (loading : bool) (processes : list Process) (v : ViewState) :
  1 ≤ currentPage v ≤ totalPages (sortedOf processes v) →
  tableBody loading processes v = Rows (paginatedOf processes v) ∧
  paginatedOf processes v ≠ [].
Proof.
  intros Hp. pose proof (totalPages_bounds (sortedOf processes v)) as HT.
  pose proof (sortedOf_length processes v) as Hlen.
  pose proof (paginatedProcesses_length (sortedOf processes v) (currentPage v)) as Hpage.
  fold (paginatedOf processes v) in Hpage.
  unfold tableBody.
  rewrite (bool_decide_eq_true_2 (0 < Z.of_nat (length processes))) by lia.
  rewrite andb_false_r.
  rewrite bool_decide_eq_true_2 by lia.
  split; [done|]. intros Hnil. rewrite Hnil in Hpage. simpl in Hpage. lia.
Qed.

(** X9. While the current page is one of the pages, the table body shows
    rows, never the empty message nor the placeholders: its rows are not
    empty, each is a held process, and each matches the search. *)
Theorem page_in_range_shows_rows (loading : bool) (processes : list Process) (v : ViewState) :
  1 ≤ currentPage v ≤ totalPages (sortedOf processes v) →
  tableBody loading processes v = Rows (paginatedOf processes v) ∧
  paginatedOf processes v ≠ [] ∧
  ∀ r, r ∈ paginatedOf processes v →
       r ∈ processes ∧ matchesSearch (searchTerm v) r = true.
Proof.
  intros Hp. destruct (page_in_range_rows loading processes v Hp) as [Hbody Hrows].
  split; [done|]. split; [done|]. intros r. apply paginatedOf_rows. lia.
Qed.

Lemma page_in_range_shows_rows_witness :
  1 ≤ currentPage (setCurrentPage 2 initialView)
    ≤ totalPages (sortedOf elevenProcesses (setCurrentPage 2 initialView)) ∧
  tableBody true elevenProcesses (setCurrentPage 2 initialView)
  = Rows (paginatedOf elevenProcesses (setCurrentPage 2 initialView)).
Proof.
  assert (1 ≤ currentPage (setCurrentPage 2 initialView)
            ≤ totalPages (sortedOf elevenProcesses (setCurrentPage 2 initialView))) as H.
  { split; vm_compute; discriminate. }
  split; [exact H|].
  exact (proj1 (page_in_range_shows_rows true elevenProcesses _ H)).
Defined.

Lemma pageNumbers_in_range (T c n : Z) : n ∈ pageNumbers T c → 1 ≤ n ≤ T.
Proof.
  rewrite pageNumbers_seqZ, elem_of_seqZ. unfold pageNum.
  repeat case_decide; lia.
Qed.

(** X10. Every link of the pagination bar leads to an existing page,
    whatever the current page, stale ones included; the links are all
    different; and one of them is the current page exactly when the
    current page is one of the pages. *)
Theorem pageNumbers_links (T c : Z) :
  Forall (λ n, 1 ≤ n ≤ T) (pageNumbers T c) ∧
  NoDup (pageNumbers T c) ∧
  (c ∈ pageNumbers T c ↔ 1 ≤ c ≤ T).
Proof.
  rewrite pageNumbers_seqZ. split; [|split; [apply NoDup_seqZ|]].
  - apply Forall_forall. intros n. rewrite <-pageNumbers_seqZ.
    apply pageNumbers_in_range.
  - rewrite elem_of_seqZ. unfold pageNum. repeat case_decide; lia.
Qed.

(** X11. In every state the table reaches, whatever the user does and
    however the process list is refreshed, the current page is at least
    1; so the slice of the page never starts at a negative index, which
    would count from the end, and is the ten items from index
    [10 (page - 1)] on. *)
Theorem reachable_page_slice (processes : list Process) (v : ViewState) :
  reachable (processes, v) →
  1 ≤ currentPage v ∧
  paginatedOf processes v
  = take 10 (drop (Z.to_nat (10 * (currentPage v - 1))) (sortedOf processes v)).
Proof.
  intros Hreach. apply reachable_page_positive in Hreach. simpl in Hreach.
  split; [done|]. by apply paginatedProcesses_take_drop.
Qed.

Lemma reachable_page_slice_witness :
  reachable (elevenProcesses, pageTwoSearching) ∧
  1 ≤ currentPage pageTwoSearching.
Proof.
  split; [exact ViewFacts.pageTwoSearching_reachable|].
  exact (proj1 (reachable_page_slice _ _ ViewFacts.pageTwoSearching_reachable)).
Defined.

(** X12. Next and the page links always land on a page that shows rows:
    from a reachable state with the bar shown, after a click on Next or
    on any link the table body is a non-empty list of rows, also when the
    current page was stale. *)
Theorem next_and_links_show_rows (loading : bool) (processes : list Process) (v : ViewState) :
  reachable (processes, v) →
  paginationShown (sortedOf processes v) = true →
  let T := totalPages (sortedOf processes v) in
  (let v' := setCurrentPage (paginationNext T (currentPage v)) v in
   tableBody loading processes v' = Rows (paginatedOf processes v') ∧
   paginatedOf processes v' ≠ []) ∧
  (∀ n, n ∈ pageNumbers T (currentPage v) →
     let v' := setCurrentPage n v in
     tableBody loading processes v' = Rows (paginatedOf processes v') ∧
     paginatedOf processes v' ≠ []).
Proof.
  intros Hreach Hshown T. apply reachable_page_positive in Hreach. simpl in Hreach.
  apply paginationShown_pages in Hshown. fold T in Hshown. split.
  - intros v'. apply page_in_range_rows.
    change (sortedOf processes v') with (sortedOf processes v). fold T. simpl.
    unfold paginationNext, Math_min. lia.
  - intros n Hn v'. apply page_in_range_rows.
    change (sortedOf processes v') with (sortedOf processes v). fold T. simpl.
    by eapply pageNumbers_in_range.
Qed.

Lemma elevenProcesses_reachable : reachable (elevenProcesses, initialView).
Proof. apply (reachable_step ([], initialView)); constructor. Qed.

Lemma next_and_links_show_rows_witness :
  reachable (elevenProcesses, initialView) ∧
  paginationShown (sortedOf elevenProcesses initialView) = true ∧
  tableBody false elevenProcesses (setCurrentPage 2 initialView)
  = Rows (paginatedOf elevenProcesses (setCurrentPage 2 initialView)).
Proof.
  assert (paginationShown (sortedOf elevenProcesses initialView) = true) as H
    by reflexivity.
  split; [exact elevenProcesses_reachable|]. split; [exact H|].
  exact (proj1 (proj1 (next_and_links_show_rows false elevenProcesses initialView
                         elevenProcesses_reachable H))).
Defined.

(** X13. A stale page is a trap while the bar is hidden: when the rows
    fit one page and the current page is 2 or more, the table body shows
    no row, and no action on the table changes the current page; only a
    search or a refresh that brings back more than ten rows returns the
    bar. *)
Theorem hidden_bar_keeps_page (loading : bool) (processes : list Process)
    (v : ViewState) (s' : list Process * ViewState) :
  paginationShown (sortedOf processes v) = false →
  2 ≤ currentPage v →
  paginatedOf processes v = [] ∧
  (∀ rows, tableBody loading processes v ≠ Rows rows) ∧
  (step (processes, v) s' → currentPage s'.2 = currentPage v).
Proof.
  intros Hhidden Hp. unfold paginationShown, itemsPerPage in Hhidden.
  apply bool_decide_eq_false in Hhidden.
  assert (paginatedOf processes v = []) as Hnil.
  { unfold paginatedOf. rewrite paginatedProcesses_take_drop by lia.
    rewrite drop_ge by lia. apply take_nil. }
  split; [done|]. split.
  - intros rows. unfold tableBody. rewrite Hnil. simpl.
    by destruct (loading && _).
  - intros Hstep. inversion Hstep; subst; simpl; try done;
      unfold paginationShown, itemsPerPage in *;
      match goal with H : bool_decide _ = true |- _ =>
        apply bool_decide_eq_true in H; lia end.
Qed.

Lemma hidden_bar_keeps_page_witness :
  paginationShown (sortedOf elevenProcesses pageTwoSearching) = false ∧
  2 ≤ currentPage pageTwoSearching ∧
  paginatedOf elevenProcesses pageTwoSearching = [].
Proof.
  assert (paginationShown (sortedOf elevenProcesses pageTwoSearching) = false) as H
    by reflexivity.
  assert (2 ≤ currentPage pageTwoSearching) as H2 by (simpl; discriminate).
  split; [exact H|]. split; [exact H2|].
  exact (proj1 (hidden_bar_keeps_page false elevenProcesses pageTwoSearching
                  (elevenProcesses, pageTwoSearching) H H2)).
Defined.

End PageExtra.

Module ProviderExtra.
Import JS Provider Table Spec Sample Notions SortFacts OrderFacts TableSortFacts PageFacts
  FilterFacts NavigationFacts ProviderFacts PageExtra SortExtra.

(** *** Rounding to two decimals keeps bounds *)

Lemma round_half_up_bounds (x : number) (m : Z) :
  (0 ≤ x)%Qc → (x ≤ Qc_of_Z m)%Qc → 0 ≤ round_half_up x ≤ m.
Proof.
  intros H0 Hm. unfold round_half_up.
  set (y := (x + Q2Qc (1 # 2))%Qc).
  assert (0 ≤ y)%Qc as Hy0.
  { apply Qcplus_nonneg_nonneg; [done|]. by compute. }
  assert (y < Qc_of_Z (m + 1))%Qc as Hy1.
  { rewrite Z2Qc_inj_add. unfold y.
    eapply Qcle_lt_trans; [apply Qcplus_le_mono_r, Hm|].
    apply Qcplus_lt_mono_l. by compute. }
  split.
  - change 0 with (Qfloor 0). by apply Qfloor_resp_le.
  - assert (Qc_of_Z (Qfloor y) < Qc_of_Z (m + 1))%Qc as Hlt.
    { eapply Qcle_lt_trans; [|exact Hy1]. apply Qfloor_le. }
    apply Z2Qc_inj_lt in Hlt. lia.
Qed.

Lemma hundredths_bounds (k m : Z) :
  0 ≤ k ≤ 100 * m → (0 ≤ Qc_of_Z k / Qc_of_Z 100 ≤ Qc_of_Z m)%Qc.
Proof.
  intros Hk. unfold Qcle, Qcdiv, Qcmult, Qcinv, Q2Qc. simpl.
  rewrite !Qred_correct.
  unfold Qle, Qmult, Qinv, inject_Z. simpl. lia.
Qed.

Lemma toFixed2_bounds (x : number) (m : Z) :
  (0 ≤ x)%Qc → (x ≤ Qc_of_Z m)%Qc → (0 ≤ toFixed2 x ≤ Qc_of_Z m)%Qc.
Proof.
  intros H0 Hm. unfold toFixed2.
  rewrite decide_False by (by apply Qcle_not_lt).
  apply hundredths_bounds.
  assert (0 ≤ x * Qc_of_Z 100)%Qc as H0'.
  { apply Qcmult_nonneg_nonneg; [done|]. by compute. }
  assert (x * Qc_of_Z 100 ≤ Qc_of_Z (100 * m))%Qc as Hm'.
  { rewrite Z2Qc_inj_mul, (Qcmult_comm (Qc_of_Z 100)).
    apply Qcmult_le_mono_nonneg_r; [by compute|done]. }
  pose proof (round_half_up_bounds _ _ H0' Hm'). lia.
Qed.

Lemma scaled_bounds (r : number) (m : Z) :
  (0 ≤ r)%Qc → (r < 1)%Qc → 0 ≤ m →
  (0 ≤ r * Qc_of_Z m)%Qc ∧ (r * Qc_of_Z m ≤ Qc_of_Z m)%Qc.
Proof.
  intros H0 H1 Hm.
  assert (0 ≤ Qc_of_Z m)%Qc as Hm'.
  { rewrite <-Z2Qc_inj_0. by apply (proj1 (Z2Qc_inj_le 0 m)). }
  split; [by apply Qcmult_nonneg_nonneg|].
  rewrite <-(Qcmult_1_l (Qc_of_Z m)) at 2.
  apply Qcmult_le_mono_nonneg_r; [done|]. by apply Qclt_le_weak.
Qed.

(** *** The synthetic records *)

Section Generators.
Variable Math_random : nat → number.
Variable Date_now : nat → Z.
Variable toISOString : Z → string.

Local Abbreviation mock := (mockProcess Math_random Date_now toISOString).
Local Abbreviation mocks := (generateMockProcesses Math_random Date_now toISOString).

(** What one run of the callback draws and builds. *)
Lemma mockProcess_run (i : Z) (w : World) :
  mock i w =
  let n := random_calls w in
  ({| pid := 1000 + i;
      name := index "" processNames
                (Math_floor (Math_random n * Qc_of_Z (Z.of_nat (length processNames)))%Qc);
      status := index "" statuses
                  (Math_floor (Math_random (2 + n)%nat
                               * Qc_of_Z (Z.of_nat (length statuses)))%Qc);
      cpuKb := toFixed2 (Math_random (4 + n)%nat * Qc_of_Z 100)%Qc;
      memoryKb := toFixed2 (Math_random (5 + n)%nat * Qc_of_Z 1000)%Qc;
      user := index "" users
                (Math_floor (Math_random (1 + n)%nat * Qc_of_Z (Z.of_nat (length users)))%Qc);
      startTime :=
        String.substring 0 19
          (replace_first "T" " "
             (toISOString
                (Date_now (clock_reads w)
                 - Math_floor (Math_random (6 + n)%nat * Qc_of_Z (30 * 24 * 60 - 5)
                               + Qc_of_Z 5)%Qc * 60000)));
      threads := Math_floor (Math_random (7 + n)%nat * Qc_of_Z 20)%Qc + 1;
      priority := index 0 priorities
                    (Math_floor (Math_random (3 + n)%nat
                                 * Qc_of_Z (Z.of_nat (length priorities)))%Qc) |},
   {| random_calls := 8 + n; clock_reads := 1 + clock_reads w |}).
Proof. reflexivity. Qed.

Lemma mapM_fmap {A B C} (f : A → Gen B) (g : B → C) (h : A → C) (l : list A) (w : World) :
  (∀ a w', g (f a w').1 = h a) → g <$> (mapM f l w).1 = h <$> l.
Proof.
  intros Hf. revert w. induction l as [|a l IH]; intros w; [done|].
  simpl. run_gen. specialize (Hf a w). destruct (f a w) as [b w1].
  specialize (IH w1). destruct (mapM f l w1) as [bs w2]. cbn [fst] in *.
  change (g <$> b :: bs = h <$> a :: l). by rewrite !fmap_cons, Hf, IH.
Qed.

Lemma mapM_Forall {A B} (f : A → Gen B) (P : B → Prop) (l : list A) (w : World) :
  (∀ a w', P (f a w').1) → Forall P (mapM f l w).1.
Proof.
  intros Hf. revert w. induction l as [|a l IH]; intros w; [by constructor|].
  simpl. run_gen. specialize (Hf a w). destruct (f a w) as [b w1].
  specialize (IH w1). destruct (mapM f l w1) as [bs w2]. simpl in *.
  by constructor.
Qed.

Lemma mapM_world {A B} (f : A → Gen B) (r c : nat) (l : list A) (w : World) :
  (∀ a w', (f a w').2 = {| random_calls := r + random_calls w';
                           clock_reads := c + clock_reads w' |}) →
  (mapM f l w).2 = {| random_calls := length l * r + random_calls w;
                      clock_reads := length l * c + clock_reads w |}.
Proof.
  intros Hf. revert w. induction l as [|a l IH]; intros w; [by destruct w|].
  simpl. run_gen. specialize (Hf a w). destruct (f a w) as [b w1].
  specialize (IH w1). destruct (mapM f l w1) as [bs w2]. simpl in *.
  rewrite IH, Hf. simpl. f_equal; lia.
Qed.

(** X14. The pids of a synthetic list are the numbers 1000 to 1099, each
    once: no two records of a synthetic snapshot share a pid, whatever
    the random draws and however the sort by memory arranges them. *)
Theorem generateMockProcesses_pids (w : World) :
  pid <$> (mocks w).1 ≡ₚ seqZ 1000 100 ∧ NoDup (pid <$> (mocks w).1).
Proof.
  assert (pid <$> (mocks w).1 ≡ₚ seqZ 1000 100) as Hperm.
  { unfold generateMockProcesses. run_gen.
    pose proof (mapM_fmap mock pid (Z.add 1000) (seqZ 0 100) w
                  (λ a w', eq_refl)) as Hpids.
    destruct (mapM _ _ w) as [generated w1]. cbn [fst ret] in *.
    rewrite sort_perm, Hpids. by rewrite fmap_add_seqZ. }
  split; [done|]. rewrite Hperm. apply NoDup_seqZ.
Qed.

(** X15. A synthetic list costs 800 random draws and 100 readings of the
    clock, a synthetic resource summary 4 draws; a fetch that delivers
    data costs none, and returns the data as delivered. *)
Theorem fallback_footprint (w : World)
    (status : Z) (text : string) (data : list Process) (summary : SystemResources) :
  (mocks w).2 = {| random_calls := 800 + random_calls w;
                   clock_reads := 100 + clock_reads w |} ∧
  (generateMockSystemResources Math_random w).2
  = {| random_calls := 4 + random_calls w; clock_reads := clock_reads w |} ∧
  fetchProcesses Math_random Date_now toISOString (Responded true status text (Some data)) w
  = (data, w) ∧
  fetchSystemResources Math_random (Responded true status text (Some summary)) w
  = (summary, w).
Proof.
  split; [|done].
  unfold generateMockProcesses. run_gen.
  pose proof (mapM_world mock 8 1 (seqZ 0 100) w (λ a w', eq_refl)) as Hw.
  destruct (mapM _ _ w) as [generated w1]. cbn [snd ret] in *.
  rewrite Hw, length_seqZ. reflexivity.
Qed.

Hypothesis Math_random_range : ∀ n, (0 ≤ Math_random n)%Qc ∧ (Math_random n < 1)%Qc.

Lemma toFixed2_scaled (n : nat) (m : Z) :
  0 ≤ m → (0 ≤ toFixed2 (Math_random n * Qc_of_Z m) ≤ Qc_of_Z m)%Qc.
Proof.
  intros Hm. apply toFixed2_bounds; apply scaled_bounds;
    (apply Math_random_range || lia).
Qed.

Lemma mockProcess_plausible (i : Z) (w : World) : plausible (mock i w).1.
Proof.
  rewrite mockProcess_run. cbv zeta. unfold plausible.
  cbn [fst pid name status cpuKb memoryKb user startTime threads priority].
  pose proof (Math_floor_scaled (Math_random (7 + random_calls w)) 20
                (proj1 (Math_random_range _)) (proj2 (Math_random_range _))) as Hthr.
  pose proof (toFixed2_scaled (4 + random_calls w) 100) as [Hc0 Hc1]; [lia|].
  pose proof (toFixed2_scaled (5 + random_calls w) 1000) as [Hm0 Hm1]; [lia|].
  split_and!; try done; try lia;
    apply index_member; (apply Math_random_range || done).
Qed.

(** X16. With random draws in [0, 1), every synthetic record has a name,
    a user, a status and a priority of the catalogues (no index runs past
    a catalogue), between 1 and 20 threads, a cpu figure between 0 and
    100 and a memory figure between 0 and 1000, both ends included: the
    rounding to two decimals can reach the upper end. *)
Theorem generateMockProcesses_plausible (w : World) :
  Forall plausible (mocks w).1.
Proof.
  unfold generateMockProcesses. run_gen.
  pose proof (mapM_Forall mock plausible (seqZ 0 100) w mockProcess_plausible) as H.
  destruct (mapM _ _ w) as [generated w1]. simpl in *.
  by rewrite sort_perm.
Qed.

(** X17. With random draws in [0, 1), a synthetic resource summary never
    reports more than there is: memory in use is at most 16000 of the
    32000 in total, disk in use at most 500000 of the 1000000 in total,
    and the cpu and network figures are between 0 and 100. *)
Theorem generateMockSystemResources_within_capacity (w : World) :
  let r := (generateMockSystemResources Math_random w).1 in
  (0 ≤ totalMemoryUsage r ≤ Qc_of_Z 16000)%Qc ∧
  (totalMemoryUsage r ≤ totalMemory r)%Qc ∧
  (0 ≤ diskUsage r ≤ Qc_of_Z 500000)%Qc ∧
  (diskUsage r ≤ totalDisk r)%Qc ∧
  (0 ≤ totalCpuUsage r ≤ Qc_of_Z 100)%Qc ∧
  (0 ≤ networkUsage r ≤ Qc_of_Z 100)%Qc.
Proof.
  cbn [generateMockSystemResources fst totalMemoryUsage totalMemory diskUsage
       totalDisk totalCpuUsage networkUsage].
  simpl.
  pose proof (toFixed2_scaled (random_calls w) 100) as [Hc0 Hc1]; [lia|].
  pose proof (toFixed2_scaled (S (random_calls w)) 16000) as [Hm0 Hm1]; [lia|].
  pose proof (toFixed2_scaled (S (S (random_calls w))) 500000) as [Hd0 Hd1]; [lia|].
  pose proof (toFixed2_scaled (S (S (S (random_calls w)))) 100) as [Hn0 Hn1]; [lia|].
  split_and!; try done.
  - eapply Qcle_trans; [exact Hm1|]. by compute.
  - eapply Qcle_trans; [exact Hd1|]. by compute.
Qed.

Variable JSON_stringify : list Process → string.

Local Abbreviation refresh :=
  (refreshProcesses Math_random Date_now toISOString JSON_stringify).

Lemma filteredProcesses_all (processes : list Process) :
  filteredProcesses processes "" = processes.
Proof.
  unfold filteredProcesses. induction processes as [|p l IH]; [done|].
  simpl. by rewrite matchesSearch_empty, IH.
Qed.

Lemma sortedOf_descending_memory (processes : list Process) :
  descending_memory processes → sortedOf processes initialView = processes.
Proof.
  intros Hsorted. unfold sortedOf, filteredOf. simpl.
  rewrite filteredProcesses_all. apply sort_sorted_id.
  eapply StronglySorted_weaken; [|exact Hsorted].
  intros a b Hab. by apply compareProcesses_keeps.
Qed.

(** X18. The first load with the backend down: the refresh installs the
    100 synthetic records, and the table in its initial view shows them
    in the order they came in (the synthetic list is already in the
    default order, memory descending), on 10 pages with the bar shown,
    the first page being the ten records that use most memory. *)
Theorem first_load_offline
    (processResponse : FetchResult (list Process))
    (resourceResponse : FetchResult SystemResources) (w : World) :
  failed processResponse →
  let st' := (refresh processResponse resourceResponse Provider.initialState w).1 in
  length (processes st') = 100%nat ∧
  loading st' = false ∧
  sortedOf (processes st') initialView = processes st' ∧
  totalPages (sortedOf (processes st') initialView) = 10 ∧
  paginationShown (sortedOf (processes st') initialView) = true ∧
  tableBody (loading st') (processes st') initialView = Rows (take 10 (processes st')).
Proof.
  intros Hfailed.
  pose proof (generateMockProcesses_length Math_random Date_now toISOString w) as Hlen.
  pose proof (generateMockProcesses_sorted Math_random Date_now toISOString w) as Hsorted.
  unfold refreshProcesses. run_gen.
  rewrite (fetchProcesses_failed _ _ _ _ Hfailed).
  destruct (generateMockProcesses _ _ _ w) as [data w1].
  destruct (fetchSystemResources _ _ w1) as [summary w2].
  cbn [fst ret processes loading] in *.
  change (updateProcesses JSON_stringify data (processes Provider.initialState)) with data.
  pose proof (sortedOf_descending_memory data Hsorted) as Hview.
  assert (totalPages data = 10) as Hpages by (by rewrite totalPages_div, Hlen).
  rewrite Hview. split_and!; try done.
  - unfold paginationShown, itemsPerPage. by rewrite Hlen.
  - destruct (page_in_range_rows false data initialView) as [-> _].
    + rewrite Hview, Hpages. simpl. lia.
    + unfold paginatedOf. rewrite Hview.
      by rewrite paginatedProcesses_take_drop.
Qed.

Hypothesis JSON_stringify_inj : ∀ a b, JSON_stringify a = JSON_stringify b → a = b.

(** X19. After every refresh the first five held entries are the first
    five fetched ones, whether the refresh kept the held list or replaced
    it: what the skipped update can leave stale starts at the sixth
    entry. *)
Theorem refresh_first_five
    (processResponse : FetchResult (list Process))
    (resourceResponse : FetchResult SystemResources) (st : Provider.State) (w : World) :
  let processData := (fetchProcesses Math_random Date_now toISOString processResponse w).1 in
  let st' := (refresh processResponse resourceResponse st w).1 in
  take 5 (processes st') = take 5 processData.
Proof.
  unfold refreshProcesses. run_gen.
  destruct (fetchProcesses _ _ _ _ w) as [processData w1].
  destruct (fetchSystemResources _ _ w1) as [summary w2].
  cbn [fst ret processes].
  rewrite (updateProcesses_spec JSON_stringify JSON_stringify_inj).
  case_decide as H; [|done]. by destruct H as [_ ->].
Qed.

End Generators.

Lemma halfRandom_range (n : nat) : (0 ≤ halfRandom n)%Qc ∧ (halfRandom n < 1)%Qc.
Proof. split; by compute. Qed.

Lemma generateMockProcesses_plausible_witness :
  (∀ n, (0 ≤ halfRandom n)%Qc ∧ (halfRandom n < 1)%Qc) ∧
  Forall plausible (generateMockProcesses halfRandom epochClock epochISO (mkWorld 0 0)).1.
Proof.
  split; [exact halfRandom_range|].
  exact (generateMockProcesses_plausible halfRandom epochClock epochISO
           halfRandom_range (mkWorld 0 0)).
Defined.

Lemma generateMockSystemResources_within_capacity_witness :
  (∀ n, (0 ≤ halfRandom n)%Qc ∧ (halfRandom n < 1)%Qc) ∧
  (totalMemoryUsage (generateMockSystemResources halfRandom (mkWorld 0 0)).1
   ≤ totalMemory (generateMockSystemResources halfRandom (mkWorld 0 0)).1)%Qc.
Proof.
  split; [exact halfRandom_range|].
  exact (proj1 (proj2 (generateMockSystemResources_within_capacity halfRandom
                         halfRandom_range (mkWorld 0 0)))).
Defined.

Lemma first_load_offline_witness :
  failed (Rejected "Failed to fetch" : FetchResult (list Process)) ∧
  length (processes
            (refreshProcesses halfRandom epochClock epochISO indexStringify
               (Rejected "Failed to fetch") (Rejected "Failed to fetch")
               Provider.initialState (mkWorld 0 0)).1) = 100%nat.
Proof.
  split; [exact I|].
  exact (proj1 (first_load_offline halfRandom epochClock epochISO indexStringify
                  (Rejected "Failed to fetch") (Rejected "Failed to fetch")
                  (mkWorld 0 0) I)).
Defined.

Lemma refresh_first_five_witness :
  (∀ a b, indexStringify a = indexStringify b → a = b) ∧
  take 5 (processes
            (refreshProcesses halfRandom epochClock epochISO indexStringify
               (Responded true 200 "" (Some [nodeProcess]))
               (Rejected "Failed to fetch") heldState (mkWorld 0 0)).1)
  = [nodeProcess].
Proof.
  split; [exact indexStringify_inj|].
  exact (refresh_first_five halfRandom epochClock epochISO indexStringify
           indexStringify_inj (Responded true 200 "" (Some [nodeProcess]))
           (Rejected "Failed to fetch") heldState (mkWorld 0 0)).
Defined.

(** X20. Starting a refresh never disturbs the rows: while the fetches
    are in flight the table body is what it was whenever processes are
    held, whichever render's closure runs the refresh; the placeholders
    appear only while nothing is held. *)
Theorem refreshStart_keeps_rows (seen : list Process) (st : Provider.State) (v : ViewState) :
  let pending := refreshStart seen st in
  processes pending = processes st ∧
  chatHistory pending = chatHistory st ∧
  (processes st ≠ [] →
   tableBody (loading pending) (processes pending) v
   = tableBody (loading st) (processes st) v) ∧
  (tableBody (loading pending) (processes pending) v = Skeleton 5 →
   processes st = []).
Proof.
  unfold refreshStart. case_bool_decide; simpl; split_and!; try done.
  - intros Hheld. unfold tableBody.
    rewrite (bool_decide_eq_true_2 (0 < Z.of_nat (length (processes st))))
      by (destruct (processes st); simpl; [done|lia]).
    by rewrite !andb_false_r.
  - unfold tableBody. destruct (processes st) as [|p l]; [done|].
    rewrite (bool_decide_eq_true_2 (0 < Z.of_nat (length (p :: l)))) by (simpl; lia).
    simpl. by case_bool_decide.
  - unfold tableBody. destruct (processes st) as [|p l]; [done|].
    rewrite (bool_decide_eq_true_2 (0 < Z.of_nat (length (p :: l)))) by (simpl; lia).
    rewrite andb_false_r. by case_bool_decide.
Qed.

End ProviderExtra.

Module QueryExtra.
Import JS Provider Query Spec Sample Session Notions ResponseBox StringFacts QueryFacts.

Section Submission.
Variable Number_toString : number → string.
Variable fetch : string → Payload → FetchResult Reply.

Local Abbreviation submit := (handleSubmit Number_toString fetch).

(** The three ways a submission ends. *)
Lemma handleSubmit_outcome (shared : Provider.State) (st : State) :
  let request := requestOf Number_toString shared st in
  let failure error :=
    (shared,
     {| query := query st; isLoading := false; ollamaAvailable := ollamaAvailable st |},
     [PreventDefault; Post generateUrl request; ConsoleError "Ollama API error:" error;
      ConsoleError "Error querying AI:" error; ToastError "Failed to get a response"]) in
  submit shared st =
  if decide (blank (query st))
  then (shared, st, [PreventDefault; ToastError "Please enter a query"])
  else match fetch generateUrl request with
       | Responded true _ _ (Some data) =>
           (addToChatHistory (replyText data) shared,
            {| query := ""; isLoading := false; ollamaAvailable := ollamaAvailable st |},
            [PreventDefault; Post generateUrl request; ScrollLater 100])
       | Responded true _ text None => failure (BodyError text)
       | Responded false status text _ =>
           failure (StatusError ("Error " +:+ Z_toString status +:+ ": " +:+ text))
       | Rejected reason => failure (FetchError reason)
       end.
Proof.
  cbv zeta. case_decide as Hblank.
  - unfold handleSubmit. by rewrite (proj2 (trim_empty _) Hblank).
  - rewrite (handleSubmit_sent Number_toString fetch) by done.
    rewrite queryOllama_spec. cbv zeta.
    by destruct (fetch _ _) as [|[] ? ? []].
Qed.

Lemma replyText_truthy (data : Reply) : truthy (replyText data) = true.
Proof.
  unfold replyText. destruct (response data) as [text|]; [|done].
  by destruct (truthy text) eqn:E.
Qed.

(** X21. A submission touches nothing but the chat history and its own
    input: the held processes, the resource summary and the flags of the
    provider are as they were, and so is the verdict of the probe; after
    a submission that sent a request the input is no longer loading. *)
Theorem handleSubmit_frame (shared : Provider.State) (st : State) :
  let '(shared', st', effects) := submit shared st in
  processes shared' = processes shared ∧
  systemResources shared' = systemResources shared ∧
  loading shared' = loading shared ∧
  error shared' = error shared ∧
  ollamaAvailable st' = ollamaAvailable st ∧
  (posts effects ≠ [] → isLoading st' = false).
Proof.
  rewrite handleSubmit_outcome. cbv zeta. case_decide.
  - by split_and!.
  - by destruct (fetch _ _) as [|[] ? ? []].
Qed.

(** X22. A submission appends nothing or one reply that is not empty:
    the chat history never receives an empty entry, since an absent or
    empty [response] field is replaced by the placeholder. *)
Theorem handleSubmit_appends_text (shared : Provider.State) (st : State) :
  let shared' := (submit shared st).1.1 in
  chatHistory shared' = chatHistory shared ∨
  ∃ reply, reply ≠ "" ∧ chatHistory shared' = chatHistory shared ++ [reply].
Proof.
  rewrite handleSubmit_outcome. cbv zeta. case_decide; [by left|].
  destruct (fetch _ _) as [|[] ? ? [data|]]; try by left.
  right. exists (replyText data). split; [|done].
  pose proof (replyText_truthy data) as Hreply. by destruct (replyText data).
Qed.

(** X23. The guard in the handler backs the disabled button: whenever
    the submit button is enabled, a submission sends exactly one request
    and never shows the warning [Please enter a query]; a blank query or
    a request in flight disables the button. *)
Theorem enabled_button_sends (shared : Provider.State) (st : State) :
  submitDisabled st = false →
  let effects := (submit shared st).2 in
  (∃ body, posts effects = [Post generateUrl body]) ∧
  (ToastError "Please enter a query" ∉ effects) ∧
  ¬ blank (query st) ∧ isLoading st = false.
Proof.
  unfold submitDisabled. intros [Hload Htrim%negb_false_iff]%orb_false_iff.
  assert (¬ blank (query st)) as Hblank.
  { intros H. apply trim_empty in H. congruence. }
  rewrite handleSubmit_outcome. cbv zeta. rewrite decide_False by done.
  split_and!; try done.
  - destruct (fetch _ _) as [|[] ? ? []]; by eexists.
  - destruct (fetch _ _) as [|[] ? ? []]; simpl; intros Hin;
      repeat (apply elem_of_cons in Hin as [Hin|Hin]; [discriminate Hin|]);
      by apply elem_of_nil in Hin.
Qed.

Lemma disabled_button (st : State) :
  blank (query st) ∨ isLoading st = true → submitDisabled st = true.
Proof.
  unfold submitDisabled. intros [H| ->]; [|done].
  apply trim_empty in H. rewrite H. apply orb_true_r.
Qed.

End Submission.

Lemma append_empty_r (s : string) : s +:+ "" = s.
Proof. induction s as [|c s IH]; [done|]. by rewrite append_cons, IH. Qed.

Lemma join_mentions (sep x : string) (l : list string) :
  x ∈ l → ∃ a b, join sep l = a +:+ x +:+ b.
Proof.
  induction l as [|y l IH]; [by intros ?%elem_of_nil|].
  intros [->|Hx]%elem_of_cons.
  - destruct l as [|z l]; [exists "", ""; simpl; by rewrite append_empty_r|].
    by exists "", (sep +:+ join sep (z :: l)).
  - destruct (IH Hx) as (a & b & Heq).
    destruct l as [|z l]; [by apply elem_of_nil in Hx|].
    exists (y +:+ sep +:+ a), b.
    change (join sep (y :: z :: l)) with (y +:+ sep +:+ join sep (z :: l)).
    by rewrite Heq, !append_assoc.
Qed.

(** X24. The context leaves no process out: the entry of every held
    process occurs in it, however long the list, and so in the prompt of
    every request. *)
Theorem context_mentions_all (Number_toString : number → string)
    (processes : list Process) (proc : Process) (question : string) :
  proc ∈ processes →
  includes (buildContext Number_toString processes)
           (processLine Number_toString proc) = true ∧
  includes (buildContext Number_toString processes +:+ String "010" "" +:+ question)
           (processLine Number_toString proc) = true.
Proof.
  intros Hin. unfold buildContext.
  destruct (join_mentions ", " (processLine Number_toString proc)
              (processLine Number_toString <$> processes)) as (a & b & ->).
  { by apply list_elem_of_fmap_2. }
  rewrite !includes_spec. split.
  - exists ("System processes: " +:+ a), b. by rewrite !append_assoc.
  - exists ("System processes: " +:+ a), (b +:+ String "010" "" +:+ question).
    by rewrite !append_assoc.
Qed.

Lemma context_mentions_all_witness :
  notepadProcess ∈ processes heldState ∧
  includes (buildContext decimal_toString (processes heldState))
           (processLine decimal_toString notepadProcess) = true.
Proof.
  assert (notepadProcess ∈ processes heldState) as H.
  { right. left. }
  split; [exact H|].
  exact (proj1 (context_mentions_all decimal_toString (processes heldState)
                  notepadProcess "top?" H)).
Defined.

(** X25. All failures look alike to the user: submissions from the same
    state whose calls fail (rejected, answered with a non-success status
    or with a body that does not parse) leave the same state and perform
    the same effects in the same order, except for the error written to
    the console; what the user can notice is the same, the one
    notification [Failed to get a response] included. The console alone
    tells the failures apart: the whole effects are equal exactly when
    the query is blank or the errors thrown are equal. *)
Theorem failures_look_alike (Number_toString : number → string)
    (fetch fetch' : string → Payload → FetchResult Reply)
    (shared : Provider.State) (st : State) :
  let request := requestOf Number_toString shared st in
  failed (fetch generateUrl request) →
  failed (fetch' generateUrl request) →
  let run := handleSubmit Number_toString fetch shared st in
  let run' := handleSubmit Number_toString fetch' shared st in
  run.1 = run'.1 ∧
  Forall2 alike run.2 run'.2 ∧
  visible run.2 = visible run'.2 ∧
  (run.2 = run'.2 ↔
   blank (query st) ∨
   thrownFor (fetch generateUrl request) = thrownFor (fetch' generateUrl request)).
Proof.
  intros request Hf Hf' run run'. subst run run'.
  rewrite !handleSubmit_outcome. cbv zeta. fold request.
  case_decide as Hblank.
  { split_and!; [done|by repeat constructor|done|]. split; [by left|done]. }
  destruct (fetch generateUrl request) as [reason|[] status text [data|]];
    destruct (fetch' generateUrl request) as [reason'|[] status' text' [data'|]];
    try done; simpl;
    (split_and!; [done|repeat (apply List.Forall2_cons; [done|]); apply List.Forall2_nil|done|];
     split; [intros Heq; right; congruence|intros [?|Heq]; [done|congruence]]).
Qed.

Lemma failures_look_alike_witness :
  failed (unreachable generateUrl (requestOf decimal_toString heldState (typed "top?"))) ∧
  failed (overloaded generateUrl (requestOf decimal_toString heldState (typed "top?"))) ∧
  (handleSubmit decimal_toString unreachable heldState (typed "top?")).1
  = (handleSubmit decimal_toString overloaded heldState (typed "top?")).1 ∧
  visible (handleSubmit decimal_toString unreachable heldState (typed "top?")).2
  = visible (handleSubmit decimal_toString overloaded heldState (typed "top?")).2.
Proof.
  split; [exact I|]. split; [exact I|].
  pose proof (failures_look_alike decimal_toString unreachable overloaded
                heldState (typed "top?") I I) as (Hstate & _ & Hvisible & _).
  split; [exact Hstate|exact Hvisible].
Defined.

(** The same two failures in the console: the errors written differ. *)
Example failures_in_console :
  (handleSubmit decimal_toString unreachable heldState (typed "top?")).2
  = [PreventDefault;
     Post generateUrl (requestOf decimal_toString heldState (typed "top?"));
     ConsoleError "Ollama API error:" (FetchError "Failed to fetch");
     ConsoleError "Error querying AI:" (FetchError "Failed to fetch");
     ToastError "Failed to get a response"] ∧
  (handleSubmit decimal_toString overloaded heldState (typed "top?")).2
  = [PreventDefault;
     Post generateUrl (requestOf decimal_toString heldState (typed "top?"));
     ConsoleError "Ollama API error:" (StatusError "Error 500: model not loaded");
     ConsoleError "Error querying AI:" (StatusError "Error 500: model not loaded");
     ToastError "Failed to get a response"].
Proof. by split. Qed.

Lemma enabled_button_sends_witness :
  submitDisabled (typed "top?") = false ∧
  ToastError "Please enter a query"
    ∉ (handleSubmit decimal_toString unreachable heldState (typed "top?")).2.
Proof.
  assert (submitDisabled (typed "top?") = false) as H by reflexivity.
  split; [exact H|].
  exact (proj1 (proj2 (enabled_button_sends decimal_toString unreachable
                         heldState (typed "top?") H))).
Defined.

(** X26. The warning about the inference service is passive. It is shown
    exactly when the probe was rejected or answered with a status other
    than 200 (a success status such as 204 included), and not before the
    probe settles; and the verdict changes neither the disabled state of
    the input and of the button nor what a submission does. *)
Theorem probe_is_passive {A} (Number_toString : number → string)
    (fetch : string → Payload → FetchResult Reply)
    (probe : FetchResult A) (shared : Provider.State) (st : State) :
  let st' := checkOllama probe st in
  (warningShown st' = true ↔
   ¬ ∃ ok text json, probe = Responded ok 200 text json) ∧
  warningShown initialState = false ∧
  submitDisabled st' = submitDisabled st ∧
  inputDisabled st' = inputDisabled st ∧
  (handleSubmit Number_toString fetch shared st').1.1
  = (handleSubmit Number_toString fetch shared st).1.1 ∧
  (handleSubmit Number_toString fetch shared st').2
  = (handleSubmit Number_toString fetch shared st).2.
Proof.
  cbv zeta. split_and!; try done.
  - unfold warningShown, checkOllama, isOllamaRunning. simpl.
    destruct probe as [reason|ok status text json].
    + split; [|done]. intros _ (? & ? & ? & ?). done.
    + case_bool_decide as Hs; simpl.
      * subst. split; [done|]. intros H. destruct H. eauto.
      * split; [|done]. intros _ (? & ? & ? & ?). congruence.
  - rewrite !handleSubmit_outcome. cbv zeta. simpl.
    change (requestOf Number_toString shared (checkOllama probe st))
      with (requestOf Number_toString shared st).
    case_decide; [done|]. by destruct (fetch _ _) as [|[] ? ? []].
  - rewrite !handleSubmit_outcome. cbv zeta. simpl.
    change (requestOf Number_toString shared (checkOllama probe st))
      with (requestOf Number_toString shared st).
    case_decide; [done|]. by destruct (fetch _ _) as [|[] ? ? []].
Qed.

End QueryExtra.

Module SessionExtra.
Import JS Provider Query Spec Sample Session ResponseBox StringFacts ProviderFacts
  QueryFacts QueryExtra.

Lemma responseBox_None (chat : list string) : responseBox chat = None ↔ chat = [].
Proof.
  unfold responseBox. destruct chat as [|r chat]; [done|].
  rewrite bool_decide_eq_false_2 by (simpl; lia). done.
Qed.

(** X27. The response box shows the chat history as it is: nothing for
    an empty history, and otherwise one card per reply, in order, keyed
    by position; so after a reply is appended the box is shown and its
    last card carries that reply. *)
Theorem responseBox_cards (chat : list string) (reply : string) :
  (responseBox chat = None ↔ chat = []) ∧
  (∀ cards, responseBox chat = Some cards →
     cardText <$> cards = chat ∧ cardKey <$> cards = seq 0 (length chat)) ∧
  (∃ cards, responseBox (chat ++ [reply]) = Some cards ∧
     (cardText <$> last cards) = Some reply ∧
     (cardKey <$> last cards) = Some (length chat)).
Proof.
  split; [apply responseBox_None|]. split.
  - unfold responseBox. case_bool_decide; [done|]. intros cards [= <-]. split.
    + apply list_eq. intros i.
      rewrite list_lookup_fmap, list_lookup_imap. by destruct (chat !! i).
    + apply list_eq. intros i.
      rewrite list_lookup_fmap, list_lookup_imap.
      destruct (chat !! i) eqn:E; simpl.
      * apply lookup_lt_Some in E. by rewrite lookup_seq_lt.
      * apply lookup_ge_None in E. by rewrite lookup_seq_ge.
  - unfold responseBox.
    rewrite bool_decide_eq_false_2 by (rewrite length_app; simpl; lia).
    eexists. split; [done|].
    rewrite imap_app. simpl. rewrite !last_snoc. simpl.
    by rewrite Nat.add_0_r.
Qed.

Section Run.
Variable Math_random : nat → number.
Variable Date_now : nat → Z.
Variable toISOString : Z → string.
Variable JSON_stringify : list Process → string.
Variable Number_toString : number → string.

Local Abbreviation react :=
  (react Math_random Date_now toISOString JSON_stringify Number_toString).
Local Abbreviation run :=
  (run Math_random Date_now toISOString JSON_stringify Number_toString).

(** What one event does to the chat history. *)
Lemma react_chat (s : Provider.State * Query.State * World) (e : Event) :
  chatHistory (react s e).1.1 = chatHistory s.1.1 ∨
  ∃ reply, reply ≠ "" ∧ chatHistory (react s e).1.1 = chatHistory s.1.1 ++ [reply].
Proof.
  destruct e as [t|processResponse resourceResponse]; simpl.
  - unfold submitTurn. rewrite handleSubmit_outcome. cbv zeta.
    case_decide; [by left|].
    destruct (endpoint t _ _) as [|[] ? ? [data|]]; try by left.
    right. exists (replyText data). split; [|done].
    pose proof (replyText_truthy data) as Hreply. by destruct (replyText data).
  - left. unfold refreshProcesses. run_gen.
    destruct (fetchProcesses _ _ _ _ _) as [processData w1].
    by destruct (fetchSystemResources _ _ w1) as [summary w2].
Qed.

(** X28. The chat history only grows: over any sequence of submissions
    and refreshes, in any order, the history at the start is a prefix of
    the history at the end, it gains at most one entry per event, no
    empty entry enters it, and the response box, once shown, stays. *)
Theorem chat_history_grows (events : list Event)
    (s : Provider.State * Query.State * World) :
  let before := chatHistory s.1.1 in
  let after := chatHistory (run events s).1.1 in
  before `prefix_of` after ∧
  (length after ≤ length before + length events)%nat ∧
  (Forall (λ reply, reply ≠ "") before → Forall (λ reply, reply ≠ "") after) ∧
  (responseBox before ≠ None → responseBox after ≠ None).
Proof.
  cbv zeta. unfold Session.run. revert s.
  induction events as [|e events IH]; intros s.
  { split_and!; [done|simpl; lia|done|done]. }
  simpl. destruct (IH (react s e)) as (Hpre & Hlen & Hall & Hbox).
  destruct (react_chat s e) as [Heq|(reply & Hreply & Heq)]; rewrite Heq in *.
  - split_and!; [done|lia|done|done].
  - split_and!.
    + etrans; [|exact Hpre]. by apply prefix_app_r.
    + rewrite length_app in Hlen. simpl in Hlen. lia.
    + intros H. apply Hall, Forall_app. split; [done|]. by constructor.
    + intros _. apply Hbox. rewrite responseBox_None. by destruct (chatHistory s.1.1).
Qed.

(** One turn, by whether it is answered. *)
Lemma submitTurn_chat (s : Provider.State * Query.State) (t : Turn) :
  processes (submitTurn Number_toString s t).1 = processes s.1 ∧
  length (chatHistory (submitTurn Number_toString s t).1)
  = (length (chatHistory s.1)
     + (if answered Number_toString (processes s.1) t then 1 else 0))%nat.
Proof.
  unfold submitTurn, answered. rewrite handleSubmit_outcome. cbv zeta.
  unfold requestOf, buildContext. rewrite append_assoc.
  change (query (setQuery (asked t) s.2)) with (asked t).
  case_decide as Hblank.
  - apply trim_empty in Hblank. rewrite Hblank. simpl. split; [done|lia].
  - destruct (truthy (trim (asked t))) eqn:Htrim;
      [|by apply trim_empty in Htrim].
    simpl. destruct (endpoint t _ _) as [|[] ? ? [data|]]; simpl;
      rewrite ?length_app; simpl; split; (done || lia).
Qed.

(** X29. In a session of turns the chat history gains exactly one entry
    per answered turn, a turn being answered when its query is not blank
    and the endpoint replies with a success status and a body that
    parses; blank and failed turns add nothing, and the held processes
    stay as they are. *)
Theorem session_counts_answers (turns : list Turn) (s : Provider.State * Query.State) :
  let s' := session Number_toString turns s in
  processes s'.1 = processes s.1 ∧
  length (chatHistory s'.1)
  = (length (chatHistory s.1)
     + length (List.filter (answered Number_toString (processes s.1)) turns))%nat.
Proof.
  cbv zeta. unfold session. revert s.
  induction turns as [|t turns IH]; intros s; [simpl; split; [done|lia]|].
  simpl. destruct (IH (submitTurn Number_toString s t)) as [Hheld Hlen].
  destruct (submitTurn_chat s t) as [Hheld' Hlen'].
  rewrite Hheld, Hlen, Hheld', Hlen'. split; [done|].
  destruct (answered _ _ t); simpl; lia.
Qed.

End Run.

Example session_sample :
  let turns := [ mkTurn "top?" (answering "chrome");
                 mkTurn "   " (answering "never asked");
                 mkTurn "and then?" unreachable;
                 mkTurn "again" (answering "") ] in
  chatHistory (session decimal_toString turns (heldState, typed "")).1
  = ["earlier reply"; "chrome"; "No response from Ollama."].
Proof. reflexivity. Qed.

End SessionExtra.
